(** * Flow-controlled send queue of a SciDB connection

    A shallow embedding of [src/network/Connection.h]: the per-class
    [Channel], the [MultiChannelQueue] that owns one channel per
    [NetworkManager::MessageQueueType], and the connection state of
    [Connection].  The member functions whose bodies are in the header
    are transcribed from it; those that the header only declares are
    modelled from the design document and are marked as such. *)

From Stdlib Require Import ZArith Lia Ascii.
From stdpp Require Import strings base tactics option list numbers.

Local Open Scope Z_scope.

(** ** [uint64_t] arithmetic

    Every counter of the header is a [uint64_t]; values are integers in
    [0, 2^64) and [+], [-], [*] wrap around. *)
Module U64.

Definition modulus : Z := 2 ^ 64.

Definition wrap (z : Z) : Z := z mod modulus.

Definition add (a b : Z) : Z := wrap (a + b).

Definition sub (a b : Z) : Z := wrap (a - b).

Definition mul (a b : Z) : Z := wrap (a * b).

Definition in_range (z : Z) : Prop := 0 <= z < modulus.

End U64.

(** ** Collaborators declared outside [Connection.h] *)

Definition InstanceID : Type := Z.

Definition QueryID : Type := Z.

(** [NetworkManager::MessageQueueType] is an enumeration whose last
    enumerator [mqtMax] counts the classes; a class is its index. *)
Abbreviation MessageQueueType := nat (only parsing).

(** The part of [NetworkManager] that [Connection.h] consults: the two
    enumerators it names and the two configuration getters called by the
    [Channel] constructor.  Their values are inputs of the model. *)
Record NetworkManager : Type := mkNetworkManager {
  mqtNone : MessageQueueType;
  mqtMax : nat;
  getSendQueueLimit : MessageQueueType -> Z;
  getReceiveQueueHint : MessageQueueType -> Z
}.

(** Modelled from the spec: [MessageDesc] (declared outside
    [Connection.h]) is an opaque envelope; the queue only needs its
    message-type tag and the query that owns it, whose abort callback
    is invoked when the message is dropped. *)
Record MessageDesc : Type := mkMessageDesc {
  messageType : Z;
  owningQuery : option QueryID
}.

(** Modelled from the spec: [NetworkManager::ConnectionStatus], the
    status delta published when a channel crosses the out-of-space
    boundary; its payload is the new available count. *)
Record ConnectionStatus : Type := mkConnectionStatus {
  statusInstanceId : InstanceID;
  statusQueueType : MessageQueueType;
  statusAvailable : Z
}.

(** Modelled from the spec: the error kinds of the transport (section 7
    of the design document).  The header's functions throw; the model
    returns the kind.  [AssertionFailure] stands for a failed [assert]
    of the header. *)
Inductive ErrorKind : Type :=
| Overflow
| ProtocolViolation
| TransportError
| AssertionFailure.

(** Modelled from the spec: recovery policy.  Local recovery is limited
    to overflow; every other error terminates the connection. *)
Definition isFatal (e : ErrorKind) : bool :=
  match e with
  | Overflow => false
  | _ => true
  end.

Inductive Result (A : Type) : Type :=
| Ok (a : A)
| Err (e : ErrorKind).

Arguments Ok {A} a.
Arguments Err {A} e.

Definition isOk {A : Type} (r : Result A) : bool :=
  match r with
  | Ok _ => true
  | Err _ => false
  end.

(** ** [Connection::Channel] *)
Module Channel.

Record t : Type := mk {
  _instanceId : InstanceID;
  _mqt : MessageQueueType;
  _remoteSize : Z;
  _localSeqNum : Z;
  _remoteSeqNum : Z;
  _localSeqNumOnPeer : Z;
  _msgQ : list MessageDesc;
  _sendQueueLimit : Z
}.

(** [(x > 1) ? x : 1], the clamp applied by the constructor to both
    configuration values. *)
Definition atLeastOne (x : Z) : Z := if 1 <? x then x else 1.

(** The constructor, [Connection.h] lines 66-79.  The member
    initialisers set every counter to 0 and both limits to 1; the body
    then overwrites the limits with the clamped configuration values.
    [_msgQ] is default-constructed, hence empty.  The assertion
    [mqt < mqtMax] of line 71 is a precondition that the owner of the
    channel checks before constructing it. *)
Definition new (nm : NetworkManager) (instanceId : InstanceID)
    (mqt : MessageQueueType) : t :=
  {| _instanceId := instanceId;
     _mqt := mqt;
     _remoteSize := atLeastOne (getReceiveQueueHint nm mqt);
     _localSeqNum := 0;
     _remoteSeqNum := 0;
     _localSeqNumOnPeer := 0;
     _msgQ := [];
     _sendQueueLimit := atLeastOne (getSendQueueLimit nm mqt) |}.

(** [_localSeqNum - _localSeqNumOnPeer] as [isActive] computes it, in
    [uint64_t]. *)
Definition inFlight (c : t) : Z :=
  U64.sub (_localSeqNum c) (_localSeqNumOnPeer c).

(** The condition asserted on entry to [isActive], line 131. *)
Definition seqNumsOrdered (c : t) : Prop :=
  _localSeqNumOnPeer c <= _localSeqNum c.

(** [isActive], lines 129-133: the returned expression. *)
Definition isActive (c : t) : bool :=
  (inFlight c <? _remoteSize c) &&
  negb (match _msgQ c with [] => true | _ :: _ => false end).

(** [validateRemoteState], lines 121-126. *)
Definition validateRemoteState (c : t) (remoteSize localSeqNum remoteSeqNum : Z)
    : bool :=
  localSeqNum <=? _localSeqNum c.

Definition getLocalSeqNum (c : t) : Z := _localSeqNum c.

Definition getRemoteSeqNum (c : t) : Z := _remoteSeqNum c.

(** Modelled from the spec: [Channel::getAvailable] (declared at line
    141, body not in the header).  Available credit is
    [remoteCapacity - inFlight], and it is positive exactly when
    [isActive]'s credit test passes, so it is 0 when the window is
    full. *)
Definition getAvailable (c : t) : Z :=
  if inFlight c <? _remoteSize c then _remoteSize c - inFlight c else 0.

(** Modelled from the spec: [Channel::getNewStatus] (declared at line
    138).  A status is produced iff the available space crossed the
    0-boundary in either direction; it carries the new available count. *)
Definition getNewStatus (c : t) (spaceBefore spaceAfter : Z)
    : option ConnectionStatus :=
  if xorb (spaceBefore =? 0) (spaceAfter =? 0)
  then Some (mkConnectionStatus (_instanceId c) (_mqt c) spaceAfter)
  else None.

(** Modelled from the spec: the admission criterion of
    [Channel::pushBack]: [queue.size < sendLimit] and
    [localSeq - localSeqOnPeer < sendLimit]. *)
Definition admissible (c : t) : bool :=
  (Z.of_nat (length (_msgQ c)) <? _sendQueueLimit c) &&
  (inFlight c <? _sendQueueLimit c).

(** The channel after an accepted push: [msg] at the tail and
    [++_localSeqNum]. *)
Definition pushed (c : t) (msg : MessageDesc) : t :=
  {| _instanceId := _instanceId c;
     _mqt := _mqt c;
     _remoteSize := _remoteSize c;
     _localSeqNum := U64.add (_localSeqNum c) 1;
     _remoteSeqNum := _remoteSeqNum c;
     _localSeqNumOnPeer := _localSeqNumOnPeer c;
     _msgQ := _msgQ c ++ [msg];
     _sendQueueLimit := _sendQueueLimit c |}.

(** Modelled from the spec: [Channel::pushBack] (declared at line 90,
    body not in the header).  Fails with [Overflow] unless the message
    is admissible; otherwise appends it and increments [localSeq]. *)
Definition pushBack (c : t) (msg : MessageDesc)
    : Result (t * option ConnectionStatus) :=
  if admissible c then
    let c' := pushed c msg in
    Ok (c', getNewStatus c' (getAvailable c) (getAvailable c'))
  else Err Overflow.

Definition withQueue (c : t) (q : list MessageDesc) : t :=
  {| _instanceId := _instanceId c;
     _mqt := _mqt c;
     _remoteSize := _remoteSize c;
     _localSeqNum := _localSeqNum c;
     _remoteSeqNum := _remoteSeqNum c;
     _localSeqNumOnPeer := _localSeqNumOnPeer c;
     _msgQ := q;
     _sendQueueLimit := _sendQueueLimit c |}.

(** Modelled from the spec: [Channel::popFront] (declared at line 99).
    Returns no message when [isActive] is false; otherwise dequeues the
    head.  [localSeq] is not incremented. *)
Definition popFront (c : t)
    : t * option MessageDesc * option ConnectionStatus :=
  if isActive c then
    match _msgQ c with
    | [] => (c, None, None)
    | msg :: rest =>
        let c' := withQueue c rest in
        (c', Some msg, getNewStatus c' (getAvailable c) (getAvailable c'))
    end
  else (c, None, None).

(** Modelled from the spec: [Channel::setRemoteState] (declared at line
    110).  Updates [remoteCapacity], advances [localSeqOnPeer] to the
    observed value unless that would be a regression, and records
    [remoteSeq].  The data model keeps [remoteCapacity] at least 1, so
    an advertised size below 1 is stored as 1, as the constructor does
    with the configured hint. *)
Definition setRemoteState (c : t) (remoteSize localSeqNum remoteSeqNum : Z)
    : t * option ConnectionStatus :=
  let c' :=
    {| _instanceId := _instanceId c;
       _mqt := _mqt c;
       _remoteSize := atLeastOne remoteSize;
       _localSeqNum := _localSeqNum c;
       _remoteSeqNum := remoteSeqNum;
       _localSeqNumOnPeer :=
         if _localSeqNumOnPeer c <=? localSeqNum
         then localSeqNum else _localSeqNumOnPeer c;
       _msgQ := _msgQ c;
       _sendQueueLimit := _sendQueueLimit c |} in
  (c', getNewStatus c' (getAvailable c) (getAvailable c')).

(** Modelled from the spec: [Channel::abortMessages] (declared at line
    136).  Drops every queued message and invokes the abort callback of
    each; the second component lists the messages whose callback ran,
    in queue order.  Sequence numbers are kept. *)
Definition abortMessages (c : t) : t * list MessageDesc :=
  (withQueue c [], _msgQ c).

(** Modelled from the spec: the reset of a channel's sequence numbers
    on a generation bump. *)
Definition resetSeqNums (c : t) : t :=
  {| _instanceId := _instanceId c;
     _mqt := _mqt c;
     _remoteSize := _remoteSize c;
     _localSeqNum := 0;
     _remoteSeqNum := 0;
     _localSeqNumOnPeer := 0;
     _msgQ := _msgQ c;
     _sendQueueLimit := _sendQueueLimit c |}.

Definition withRemoteSize (c : t) (remoteSize : Z) : t :=
  {| _instanceId := _instanceId c;
     _mqt := _mqt c;
     _remoteSize := remoteSize;
     _localSeqNum := _localSeqNum c;
     _remoteSeqNum := _remoteSeqNum c;
     _localSeqNumOnPeer := _localSeqNumOnPeer c;
     _msgQ := _msgQ c;
     _sendQueueLimit := _sendQueueLimit c |}.

(** The operations of a channel, as its owner can invoke them. *)
Inductive Op : Type :=
| PushBack (msg : MessageDesc)
| PopFront
| SetRemoteState (remoteSize localSeqNum remoteSeqNum : Z)
| AbortMessages.

(** The channel after one operation; a refused push leaves it as it
    was. *)
Definition step (c : t) (op : Op) : t :=
  match op with
  | PushBack msg =>
      match pushBack c msg with
      | Ok (c', _) => c'
      | Err _ => c
      end
  | PopFront => fst (fst (popFront c))
  | SetRemoteState remoteSize localSeqNum remoteSeqNum =>
      fst (setRemoteState c remoteSize localSeqNum remoteSeqNum)
  | AbortMessages => fst (abortMessages c)
  end.

Definition run (c : t) (ops : list Op) : t := foldl step c ops.

Definition isPush (op : Op) : bool :=
  match op with
  | PushBack _ => true
  | _ => false
  end.

End Channel.

(** ** Generation ids *)

(** [struct timespec] and [struct timeval], the two clock readings
    [getNextGenId] can take. *)
Record timespec : Type := mkTimespec {
  ts_sec : Z;
  ts_nsec : Z
}.

Record timeval : Type := mkTimeval {
  tv_sec : Z;
  tv_usec : Z
}.

(** What the operating system answers when [getNextGenId] runs:
    [clock_gettime(CLOCK_MONOTONIC, _)] and [gettimeofday(_, NULL)],
    each [None] when the call returns -1. *)
Record SystemClocks : Type := mkSystemClocks {
  clock_gettime_MONOTONIC : option timespec;
  gettimeofday : option timeval
}.

(** [SCIDB_LE_CANT_GET_SYSTEM_TIME], the only failure of
    [getNextGenId]. *)
Inductive SystemError : Type :=
| CantGetSystemTime.

Definition billion : Z := 1000000000.

(** [getNextGenId], lines 270-288.  [apple] tells whether [__APPLE__]
    is defined for the build.  The sum is formed in [uint64_t]. *)
Definition getNextGenId (apple : bool) (os : SystemClocks)
    : SystemError + Z :=
  if apple then
    match gettimeofday os with
    | None => inl CantGetSystemTime
    | Some tv =>
        inr (U64.add (U64.mul (U64.wrap (tv_sec tv)) billion)
                     (U64.wrap (tv_usec tv * 1000)))
    end
  else
    match clock_gettime_MONOTONIC os with
    | None => inl CantGetSystemTime
    | Some ts =>
        inr (U64.add (U64.mul (U64.wrap (ts_sec ts)) billion)
                     (U64.wrap (ts_nsec ts)))
    end.

(** ** [Connection::MultiChannelQueue] *)
Module MultiChannelQueue.

(** [_channels] is a vector of shared pointers: a slot is [None] while
    its pointer is null.  [_currChannel] holds a class index. *)
Record t : Type := mk {
  _instanceId : InstanceID;
  _channels : list (option Channel.t);
  _currChannel : MessageQueueType;
  _activeChannelCount : Z;
  _size : Z;
  _remoteGenId : Z;
  _localGenId : Z
}.

(** The member initialisers of the constructor, lines 176-183, with
    [localGenId] the value returned by [getNextGenId]:
    [_channels(mqtMax)] is [mqtMax] null pointers. *)
Definition init (nm : NetworkManager) (instanceId : InstanceID)
    (localGenId : Z) : t :=
  {| _instanceId := instanceId;
     _channels := replicate (mqtMax nm) None;
     _currChannel := mqtNone nm;
     _activeChannelCount := 0;
     _size := 0;
     _remoteGenId := 0;
     _localGenId := localGenId |}.

(** The constructor: it fails when [getNextGenId] throws. *)
Definition new (nm : NetworkManager) (apple : bool) (os : SystemClocks)
    (instanceId : InstanceID) : SystemError + t :=
  match getNextGenId apple os with
  | inl e => inl e
  | inr g => inr (init nm instanceId g)
  end.

(** [isActive], lines 231-235: the returned expression. *)
Definition isActive (q : t) : bool := 0 <? _activeChannelCount q.

(** The condition asserted on entry to [isActive], line 233. *)
Definition activeCountBounded (nm : NetworkManager) (q : t) : Prop :=
  _activeChannelCount q <= Z.of_nat (mqtMax nm).

Definition size (q : t) : Z := _size q.

Definition getLocalGenId (q : t) : Z := _localGenId q.

Definition getRemoteGenId (q : t) : Z := _remoteGenId q.

(** The channel of a class, if its slot holds one. *)
Definition channel (q : t) (mqt : MessageQueueType) : option Channel.t :=
  default None (_channels q !! mqt).

Definition slotActive (slot : option Channel.t) : bool :=
  match slot with
  | Some c => Channel.isActive c
  | None => false
  end.

Definition slotLength (slot : option Channel.t) : nat :=
  match slot with
  | Some c => length (Channel._msgQ c)
  | None => 0%nat
  end.

(** Apply [f] to the channel of a slot, if there is one. *)
Definition onChannel (f : Channel.t -> Channel.t) (slot : option Channel.t)
    : option Channel.t :=
  match slot with
  | Some c => Some (f c)
  | None => None
  end.

(** The queued messages of a slot. *)
Definition slotMessages (slot : option Channel.t) : list MessageDesc :=
  match slot with
  | Some c => snd (Channel.abortMessages c)
  | None => []
  end.

(** The number of channels whose [isActive()] is true. *)
Definition activeChannels (q : t) : nat :=
  length (filter (fun slot => slotActive slot = true) (_channels q)).

(** The sum of all channels' queue lengths. *)
Definition queuedMessages (q : t) : nat :=
  sum_list_with slotLength (_channels q).

(** The cached count after one channel went from activity [before] to
    activity [after]: unchanged, incremented or decremented. *)
Definition adjustActive (count : Z) (before after : bool) : Z :=
  match before, after with
  | false, true => U64.add count 1
  | true, false => U64.sub count 1
  | _, _ => count
  end.

Definition withChannel (q : t) (mqt : MessageQueueType) (c : Channel.t)
    (curr : MessageQueueType) (active size : Z) : t :=
  {| _instanceId := _instanceId q;
     _channels := <[mqt := Some c]> (_channels q);
     _currChannel := curr;
     _activeChannelCount := active;
     _size := size;
     _remoteGenId := _remoteGenId q;
     _localGenId := _localGenId q |}.

(** Modelled from the spec: [MultiChannelQueue::pushBack] (declared at
    line 195).  Routes to the class's channel, which is created on
    first use since the constructor leaves the slots null; on success
    adds one to the total size and, if the channel went from idle to
    active, to the active count.  A class outside the enumeration
    violates the assertion of line 71 and is refused. *)
Definition pushBack (nm : NetworkManager) (q : t) (mqt : MessageQueueType)
    (msg : MessageDesc) : Result (t * option ConnectionStatus) :=
  match _channels q !! mqt with
  | None => Err AssertionFailure
  | Some slot =>
      let c := default (Channel.new nm (_instanceId q) mqt) slot in
      match Channel.pushBack c msg with
      | Err e => Err e
      | Ok (c', status) =>
          Ok (withChannel q mqt c' (_currChannel q)
                (if negb (slotActive slot) && Channel.isActive c'
                 then U64.add (_activeChannelCount q) 1
                 else _activeChannelCount q)
                (U64.add (_size q) 1),
              status)
      end
  end.

(** Round-robin scan: the first class at or after [i], cyclically and
    looking at [fuel] slots, whose channel is active. *)
Fixpoint nextActive (chs : list (option Channel.t)) (i fuel : nat)
    : option MessageQueueType :=
  match fuel with
  | O => None
  | S fuel' =>
      if slotActive (default None (chs !! i)) then Some i
      else nextActive chs (S i mod length chs) fuel'
  end.

(** Modelled from the spec: [MultiChannelQueue::popFront] (declared at
    line 204).  Returns empty when the active count is 0; otherwise
    scans from [(currChannel + 1) mod ClassCount] for an active channel,
    pops from it and moves the cursor there; the total size and the
    active count follow the channel. *)
Definition popFront (q : t)
    : t * option MessageDesc * option ConnectionStatus :=
  if _activeChannelCount q =? 0 then (q, None, None)
  else
    let n := length (_channels q) in
    match nextActive (_channels q) (S (_currChannel q) mod n) n with
    | None => (q, None, None)
    | Some mqt =>
        match channel q mqt with
        | None => (q, None, None)
        | Some c =>
            let '(c', msg, status) := Channel.popFront c in
            (withChannel q mqt c' mqt
               (adjustActive (_activeChannelCount q)
                  (Channel.isActive c) (Channel.isActive c'))
               (match msg with
                | Some _ => U64.sub (_size q) 1
                | None => _size q
                end),
             msg, status)
        end
    end.

(** Modelled from the spec: [MultiChannelQueue::abortMessages]
    (declared at line 250).  Drains every channel through its abort
    path; the second component lists the messages whose abort callback
    ran, channel by channel. *)
Definition abortMessages (q : t) : t * list MessageDesc :=
  ({| _instanceId := _instanceId q;
      _channels :=
        onChannel (fun c => fst (Channel.abortMessages c)) <$> _channels q;
      _currChannel := _currChannel q;
      _activeChannelCount := 0;
      _size := 0;
      _remoteGenId := _remoteGenId q;
      _localGenId := _localGenId q |},
   concat (slotMessages <$> _channels q)).

(** Modelled from the spec: what a peer restart does to the queue after
    the pending messages are discarded: every channel's sequence
    numbers are reset and [remoteGen] becomes the peer's generation. *)
Definition restarted (q : t) (remoteGenId : Z) : t :=
  {| _instanceId := _instanceId q;
     _channels := onChannel Channel.resetSeqNums <$> _channels q;
     _currChannel := _currChannel q;
     _activeChannelCount := _activeChannelCount q;
     _size := _size q;
     _remoteGenId := remoteGenId;
     _localGenId := _localGenId q |}.

(** The outcome of a control frame: the queue, the status to publish if
    any, and the messages whose abort callback ran. *)
Definition Outcome : Type := t * option ConnectionStatus * list MessageDesc.

(** Modelled from the spec: [MultiChannelQueue::setRemoteState]
    (declared at line 216; [localGenId] is our generation as seen by the
    peer, [remoteGenId] the peer's generation).  The three cases are
    tried in the order the design document lists them:
    equal generations, a normal update forwarded to the channel after
    [validateRemoteState], with the active count following the channel;
    a greater peer generation, a peer restart; anything else, a stale
    frame that is dropped.  A normal update for a class outside the
    enumeration is dropped as well. *)
Definition setRemoteState (nm : NetworkManager) (q : t)
    (mqt : MessageQueueType) (rSize localGenId remoteGenId : Z)
    (localSeqNum remoteSeqNum : Z) : Result Outcome :=
  if (remoteGenId =? _remoteGenId q) && (localGenId =? _localGenId q) then
    match _channels q !! mqt with
    | None => Ok (q, None, [])
    | Some slot =>
        let c := default (Channel.new nm (_instanceId q) mqt) slot in
        if Channel.validateRemoteState c rSize localSeqNum remoteSeqNum then
          let '(c', status) :=
            Channel.setRemoteState c rSize localSeqNum remoteSeqNum in
          Ok (withChannel q mqt c' (_currChannel q)
                (adjustActive (_activeChannelCount q)
                   (slotActive slot) (Channel.isActive c'))
                (_size q),
              status, [])
        else Err ProtocolViolation
    end
  else if _remoteGenId q <? remoteGenId then
    let '(q', aborted) := abortMessages q in
    Ok (restarted q' remoteGenId, None, aborted)
  else Ok (q, None, []).

(** Modelled from the spec: [MultiChannelQueue::swap] (declared at line
    251), the exchange of two queues: the pair is (this, other) after
    the call. *)
Definition swap (q other : t) : t * t := (other, q).

(** A slot holds nothing or a channel built by the [Channel]
    constructor, whose send limit is therefore at least 1. *)
Definition slotLimited (slot : option Channel.t) : Prop :=
  match slot with
  | Some c => 1 <= Channel._sendQueueLimit c
  | None => True
  end.

(** The shape every queue has: [mqtMax] slots, each empty or holding a
    constructed channel. *)
Definition wellFormed (nm : NetworkManager) (q : t) : Prop :=
  length (_channels q) = mqtMax nm /\ Forall slotLimited (_channels q).

Definition getLocalSeqNum (q : t) (mqt : MessageQueueType) : Z :=
  from_option Channel.getLocalSeqNum 0 (channel q mqt).

Definition getRemoteSeqNum (q : t) (mqt : MessageQueueType) : Z :=
  from_option Channel.getRemoteSeqNum 0 (channel q mqt).

End MultiChannelQueue.

(** ** [Connection] *)
Module Connection.

(** [ConnectionState], lines 299-304. *)
Inductive ConnectionState : Type :=
| NOT_CONNECTED
| CONNECT_IN_PROGRESS
| CONNECTED.

(** The data members that the send path reads and writes. *)
Record t : Type := mk {
  _messageQueue : MultiChannelQueue.t;
  _instanceID : InstanceID;
  _sourceInstanceID : InstanceID;
  _connectionState : ConnectionState;
  _isSending : bool
}.

(** [isConnected], lines 363-366. *)
Definition isConnected (conn : t) : bool :=
  match _connectionState conn with
  | CONNECTED => true
  | _ => false
  end.

End Connection.

(** ** A small configuration

    Two classes, a send limit and a receive hint of 4 messages each, and
    a queue of generation 5 holding two messages of class 1. *)
Module Example.

Definition nm : NetworkManager :=
  mkNetworkManager 0%nat 2%nat (fun _ => 4) (fun _ => 4).

Definition m1 : MessageDesc := mkMessageDesc 1 (Some 10).

Definition m2 : MessageDesc := mkMessageDesc 1 (Some 11).

Definition pushOrKeep (q : MultiChannelQueue.t) (mqt : MessageQueueType)
    (msg : MessageDesc) : MultiChannelQueue.t :=
  match MultiChannelQueue.pushBack nm q mqt msg with
  | Ok (q', _) => q'
  | Err _ => q
  end.

Definition fresh : MultiChannelQueue.t := MultiChannelQueue.init nm 1 5.

Definition loaded : MultiChannelQueue.t :=
  pushOrKeep (pushOrKeep fresh 1%nat m1) 1%nat m2.

(** [loaded] after two more pushes on class 1. *)
Definition saturated : MultiChannelQueue.t :=
  pushOrKeep (pushOrKeep loaded 1%nat m1) 1%nat m2.

Definition os : SystemClocks :=
  mkSystemClocks (Some (mkTimespec 100 5)) (Some (mkTimeval 1700000000 250)).

(** A channel of class 1 as constructed, and after four pushes, which
    fill it up to its send limit. *)
Definition idle : Channel.t := Channel.new nm 1 1%nat.

Definition full : Channel.t :=
  Channel.run idle
    [Channel.PushBack m1; Channel.PushBack m2;
     Channel.PushBack m1; Channel.PushBack m2].

(** The channel of class 1 in [loaded]. *)
Definition busy : Channel.t := Channel.run idle
  [Channel.PushBack m1; Channel.PushBack m2].

(** A connection whose connect is in progress while two messages are
    already buffered. *)
Definition connecting : Connection.t :=
  Connection.mk loaded 1 0 Connection.CONNECT_IN_PROGRESS false.

End Example.

(** ** [query/TypeSystem.cpp]

    [TypeId] is [std::string]; strings are lists of characters.  The
    [TID_*] names, the classes [Type] and [Value] and the comparator
    [__lesscasecmp] are declared in [TypeSystem.h], outside this file:
    the names and the comparator are inputs of the model, and a [Value]
    is seen through the accessors the file calls. *)
Module TypeSystem.

Abbreviation TypeId := (list ascii) (only parsing).

Definition lit (s : string) : list ascii := String.list_ascii_of_string s.

Definition NUL : ascii := Ascii.zero.

(** The characters a [const char*] denotes: those before the first
    [NUL]. *)
Fixpoint c_str (s : list ascii) : list ascii :=
  match s with
  | [] => []
  | ch :: cp => if decide (ch = NUL) then [] else ch :: c_str cp
  end.

(** [::index(s, c)]: whether [c] occurs in the C string [s], the
    terminator being part of it. *)
Fixpoint index (s : list ascii) (c : ascii) : bool :=
  match s with
  | [] => bool_decide (c = NUL)
  | x :: cp =>
      if decide (x = c) then true
      else if decide (x = NUL) then false
      else index cp c
  end.

(** [tidStringQuote], lines 307-317: the characters written to [os]. *)
Fixpoint tidStringQuote (s quoteThese : list ascii) : list ascii :=
  match s with
  | [] => []
  | ch :: cp =>
      if decide (ch = NUL) then []
      else (if index quoteThese ch then ["\"%char] else [])
             ++ ch :: tidStringQuote cp quoteThese
  end.

(** The reader's side of [tidStringQuote]: a backslash makes the next
    character literal. *)
Fixpoint unquote (s : list ascii) : list ascii :=
  match s with
  | [] => []
  | c :: cp =>
      if decide (c = "\"%char) then
        match cp with
        | [] => []
        | d :: cp' => d :: unquote cp'
        end
      else c :: unquote cp
  end.

(** [toupper], [tolower] and [isdigit] of the classic locale. *)
Definition toupper (c : ascii) : ascii :=
  let n := Ascii.nat_of_ascii c in
  if (97 <=? n)%nat && (n <=? 122)%nat
  then Ascii.ascii_of_nat (n - 32) else c.

Definition tolower (c : ascii) : ascii :=
  let n := Ascii.nat_of_ascii c in
  if (65 <=? n)%nat && (n <=? 90)%nat
  then Ascii.ascii_of_nat (n + 32) else c.

Definition isdigit (c : ascii) : bool :=
  let n := Ascii.nat_of_ascii c in (48 <=? n)%nat && (n <=? 57)%nat.


(** The exceptions the file throws, by their error codes. *)
Inductive Error : Type :=
| TYPE_NOT_REGISTERED (typeId : TypeId)
| TYPE_ALREADY_REGISTERED (typeId : TypeId)
| FUNCTION_NOT_FOUND (name : list ascii)
| INVALID_MONTH_REPRESENTATION (mString : list ascii)
| FAILED_PARSE_STRING (str : list ascii) (type : list ascii)
| INVALID_SPECIFIED_DATE
| TYPE_CONVERSION_ERROR (from to : list ascii)
| TYPE_CONVERSION_ERROR2 (str from to : list ascii).




(** The loop of [stripLeadingZeroes] that advances [cp] over zeroes. *)
Fixpoint skipZeroes (cp : list ascii) : list ascii :=
  match cp with
  | c :: cp' => if decide (c = "0"%char) then skipZeroes cp' else cp
  | [] => []
  end.

(** [stripLeadingZeroes], lines 674-685 (compiled under
    [FIX_TICKET_4273]).  [cp] walks the C string of [str]; the result is
    the string from [cp] on, where [--cp] steps back onto the last
    zero. *)
Definition stripLeadingZeroes (str : list ascii) : list ascii :=
  match c_str str with
  | ch :: cp1 =>
      if bool_decide (ch = "0"%char)
         && negb (bool_decide (tolower (hd NUL cp1) = "x"%char))
      then
        let cp := skipZeroes (ch :: cp1) in
        if isdigit (hd NUL cp) then cp else "0"%char :: cp
      else str
  | [] => str
  end.

(** The value of a string of decimal digits. *)
Definition digitValue (c : ascii) : Z :=
  Z.of_nat (Ascii.nat_of_ascii c) - 48.

Definition decimalValue (digits : list ascii) : Z :=
  foldl (fun acc c => 10 * acc + digitValue c) 0 digits.

(** The [TID_*] names. *)
Record TypeIds : Type := mkTypeIds {
  TID_INDICATOR : TypeId;
  TID_CHAR : TypeId;
  TID_INT8 : TypeId;
  TID_INT16 : TypeId;
  TID_INT32 : TypeId;
  TID_INT64 : TypeId;
  TID_UINT8 : TypeId;
  TID_UINT16 : TypeId;
  TID_UINT32 : TypeId;
  TID_UINT64 : TypeId;
  TID_FLOAT : TypeId;
  TID_DOUBLE : TypeId;
  TID_BOOL : TypeId;
  TID_STRING : TypeId;
  TID_DATETIME : TypeId;
  TID_VOID : TypeId;
  TID_BINARY : TypeId;
  TID_DATETIMETZ : TypeId
}.

(** [builtinTypeInfo], lines 144-167: names and bit sizes;
    [sizeof_time_t] is [sizeof(time_t)]. *)
Definition builtinTypeInfo (tid : TypeIds) (sizeof_time_t : Z)
    : list (TypeId * Z) :=
  [ (TID_INDICATOR tid, 1);
    (TID_CHAR tid, 8);
    (TID_INT8 tid, 8);
    (TID_INT16 tid, 16);
    (TID_INT32 tid, 32);
    (TID_INT64 tid, 64);
    (TID_UINT8 tid, 8);
    (TID_UINT16 tid, 16);
    (TID_UINT32 tid, 32);
    (TID_UINT64 tid, 64);
    (TID_FLOAT tid, 32);
    (TID_DOUBLE tid, 64);
    (TID_BOOL tid, 1);
    (TID_STRING tid, 0);
    (TID_DATETIME tid, sizeof_time_t * 8);
    (TID_VOID tid, 0);
    (TID_BINARY tid, 0);
    (TID_DATETIMETZ tid, 2 * sizeof_time_t * 8) ].

(** [TID_X == type] on strings. *)
Definition sameId (name type : TypeId) : bool := bool_decide (name = type).

(** [isBuiltinType], lines 629-649. *)
Definition isBuiltinType (tid : TypeIds) (type : TypeId) : bool :=
  sameId (TID_DOUBLE tid) type
  || sameId (TID_INT64 tid) type
  || sameId (TID_INT32 tid) type
  || sameId (TID_CHAR tid) type
  || sameId (TID_STRING tid) type
  || sameId (TID_FLOAT tid) type
  || sameId (TID_INT8 tid) type
  || sameId (TID_INT16 tid) type
  || sameId (TID_UINT8 tid) type
  || sameId (TID_UINT16 tid) type
  || sameId (TID_UINT32 tid) type
  || sameId (TID_UINT64 tid) type
  || sameId (TID_INDICATOR tid) type
  || sameId (TID_BOOL tid) type
  || sameId (TID_DATETIME tid) type
  || sameId (TID_VOID tid) type
  || sameId (TID_DATETIMETZ tid) type
  || sameId (TID_BINARY tid) type.

(** [propagateType], lines 651-658. *)
Definition propagateType (tid : TypeIds) (type : TypeId) : TypeId :=
  if sameId (TID_INT8 tid) type || sameId (TID_INT16 tid) type
     || sameId (TID_INT32 tid) type
  then TID_INT64 tid
  else if sameId (TID_UINT8 tid) type || sameId (TID_UINT16 tid) type
          || sameId (TID_UINT32 tid) type
  then TID_UINT64 tid
  else if sameId (TID_FLOAT tid) type then TID_DOUBLE tid else type.

(** [propagateTypeToReal], lines 660-665. *)
Definition propagateTypeToReal (tid : TypeIds) (type : TypeId) : TypeId :=
  if sameId (TID_INT8 tid) type || sameId (TID_INT16 tid) type
     || sameId (TID_INT32 tid) type || sameId (TID_INT64 tid) type
     || sameId (TID_UINT8 tid) type || sameId (TID_UINT16 tid) type
     || sameId (TID_UINT32 tid) type || sameId (TID_UINT64 tid) type
     || sameId (TID_FLOAT tid) type
  then TID_DOUBLE tid else type.

(** The C types for which [type2TypeId] is specialised, lines 875-885,
    with their sizes in bytes. *)
Inductive CType : Type :=
| c_char | c_int8_t | c_int16_t | c_int32_t | c_int64_t
| c_uint8_t | c_uint16_t | c_uint32_t | c_uint64_t
| c_float | c_double.

Definition sizeof (T : CType) : Z :=
  match T with
  | c_char | c_int8_t | c_uint8_t => 1
  | c_int16_t | c_uint16_t => 2
  | c_int32_t | c_uint32_t | c_float => 4
  | c_int64_t | c_uint64_t | c_double => 8
  end.

Definition type2TypeId (tid : TypeIds) (T : CType) : TypeId :=
  match T with
  | c_char => TID_CHAR tid
  | c_int8_t => TID_INT8 tid
  | c_int16_t => TID_INT16 tid
  | c_int32_t => TID_INT32 tid
  | c_int64_t => TID_INT64 tid
  | c_uint8_t => TID_UINT8 tid
  | c_uint16_t => TID_UINT16 tid
  | c_uint32_t => TID_UINT32 tid
  | c_uint64_t => TID_UINT64 tid
  | c_float => TID_FLOAT tid
  | c_double => TID_DOUBLE tid
  end.

(** The names of the built-in types as instances for the properties
    below. *)
Definition exampleIds : TypeIds :=
  mkTypeIds (lit "indicator") (lit "char") (lit "int8") (lit "int16")
    (lit "int32") (lit "int64") (lit "uint8") (lit "uint16")
    (lit "uint32") (lit "uint64") (lit "float") (lit "double")
    (lit "bool") (lit "string") (lit "datetime") (lit "void")
    (lit "binary") (lit "datetimetz").

(** The names that [propagateType] tells apart. *)
Definition numericIds (tid : TypeIds) : list TypeId :=
  [TID_INT8 tid; TID_INT16 tid; TID_INT32 tid; TID_INT64 tid;
   TID_UINT8 tid; TID_UINT16 tid; TID_UINT32 tid; TID_UINT64 tid;
   TID_FLOAT tid; TID_DOUBLE tid].

(** *** [TypeLibrary] *)

(** [Type], seen through [typeId()], [bitSize()] and [baseType()]. *)
Record Type_ : Type := mkType {
  typeId : TypeId;
  bitSize : Z;
  baseType : TypeId
}.

(** [Value], seen through the accessors that the file calls.  A
    [double] or [float] is its bit pattern; [getString] is [None] for a
    null pointer; [dataTimes] is [data()] read as two [time_t]. *)
Record Value : Type := mkValue {
  isNull : bool;
  getMissingReason : Z;
  getDouble : Z;
  getFloat : Z;
  getInt64 : Z;
  getInt32 : Z;
  getInt16 : Z;
  getInt8 : Z;
  getUint64 : Z;
  getUint32 : Z;
  getUint16 : Z;
  getUint8 : Z;
  getChar : ascii;
  getString : option (list ascii);
  getBool : bool;
  getDateTime : Z;
  dataTimes : Z * Z
}.

(** A [std::map<TypeId, V, __lesscasecmp>]: its entries in the order of
    iteration.  [less] is the comparator; two keys are the same key of
    the map when neither is less than the other. *)
Abbreviation Map V := (list (list ascii * V)) (only parsing).

Definition sameKey (less : TypeId -> TypeId -> bool) (a b : TypeId) : bool :=
  negb (less a b) && negb (less b a).

(** [m.find(k)] *)
Fixpoint find {V : Type} (less : TypeId -> TypeId -> bool) (k : TypeId)
    (m : Map V) : option (TypeId * V) :=
  match m with
  | [] => None
  | (k', v) :: rest =>
      if sameKey less k' k then Some (k', v) else find less k rest
  end.

(** [m[k] = v]: the value of the entry with key [k] is replaced, or a
    new entry is put at its place in the order. *)
Fixpoint assign {V : Type} (less : TypeId -> TypeId -> bool) (k : TypeId)
    (v : V) (m : Map V) : Map V :=
  match m with
  | [] => [(k, v)]
  | (k', v') :: rest =>
      if less k k' then (k, v) :: (k', v') :: rest
      else if less k' k then (k', v') :: assign less k v rest
      else (k', v) :: rest
  end.

(** The data members of [TypeLibrary]; [_typeLibraries] is the list of
    the names passed to [addObject], in call order. *)
Record TypeLibrary : Type := mkTypeLibrary {
  _typesById : Map Type_;
  _builtinTypesById : Map Type_;
  _defaultValuesById : Map Value;
  _typeLibraries : list TypeId
}.

(** The library before any registration. *)
Definition emptyLibrary : TypeLibrary := mkTypeLibrary [] [] [] [].

Definition found {V : Type} (r : option (TypeId * V)) : bool :=
  match r with
  | Some _ => true
  | None => false
  end.

(** [_hasType], lines 193-201. *)
Definition _hasType (less : TypeId -> TypeId -> bool) (lib : TypeLibrary)
    (typeId : TypeId) : bool :=
  if found (find less typeId (_builtinTypesById lib)) then true
  else found (find less typeId (_typesById lib)).

(** [typeId.find_first_of('_')] *)
Fixpoint find_first_of (s : list ascii) (c : ascii) : option nat :=
  match s with
  | [] => None
  | x :: rest =>
      if decide (x = c) then Some 0%nat
      else S <$> find_first_of rest c
  end.

(** [_getType], lines 203-227: the library after the call and the type
    returned, or the exception.  [atoi] is the C function. *)
Definition _getType (less : TypeId -> TypeId -> bool)
    (atoi : list ascii -> Z) (lib : TypeLibrary) (typeId : TypeId)
    : Error + (TypeLibrary * Type_) :=
  match find less typeId (_builtinTypesById lib) with
  | Some (_, type) => inr (lib, type)
  | None =>
      match find less typeId (_typesById lib) with
      | Some (_, type) => inr (lib, type)
      | None =>
          match find_first_of typeId "_"%char with
          | Some pos =>
              let genericTypeId := take (pos + 1) typeId ++ ["*"%char] in
              match find less genericTypeId (_typesById lib) with
              | Some (_, generic) =>
                  let limitedType :=
                    mkType typeId
                      (atoi (c_str (drop (pos + 1) typeId)) * 8)
                      (baseType generic) in
                  inr (mkTypeLibrary
                         (assign less typeId limitedType (_typesById lib))
                         (_builtinTypesById lib)
                         (_defaultValuesById lib)
                         (_typeLibraries lib ++ [typeId]),
                       limitedType)
              | None => inl (TYPE_NOT_REGISTERED typeId)
              end
          | None => inl (TYPE_NOT_REGISTERED typeId)
          end
      end
  end.

(** [_registerType], lines 229-241. *)
Definition _registerType (less : TypeId -> TypeId -> bool)
    (lib : TypeLibrary) (type : Type_) : Error + TypeLibrary :=
  match find less (typeId type) (_typesById lib) with
  | None =>
      inr (mkTypeLibrary
             (assign less (typeId type) type (_typesById lib))
             (_builtinTypesById lib)
             (_defaultValuesById lib)
             (_typeLibraries lib ++ [typeId type]))
  | Some (_, registered) =>
      if negb (bool_decide (bitSize registered = bitSize type))
         || negb (bool_decide (baseType registered = baseType type))
      then inl (TYPE_ALREADY_REGISTERED (typeId type))
      else inr lib
  end.

(** The test [i->first[0] != '$'] of [_typesCount] and [_typeIds]. *)
Definition listed (entry : TypeId * Type_) : bool :=
  negb (bool_decide (hd NUL (fst entry) = "$"%char)).

(** [_typesCount], lines 243-255: the loop over [_typesById]. *)
Fixpoint countListed (m : Map Type_) (count : Z) : Z :=
  match m with
  | [] => count
  | entry :: rest =>
      countListed rest (if listed entry then count + 1 else count)
  end.

Definition _typesCount (lib : TypeLibrary) : Z :=
  countListed (_typesById lib) 0.

(** [_typeIds], lines 257-268: the loop over [_typesById]. *)
Fixpoint pushListed (m : Map Type_) (ids : list TypeId) : list TypeId :=
  match m with
  | [] => ids
  | entry :: rest =>
      pushListed rest (if listed entry then ids ++ [fst entry] else ids)
  end.

Definition _typeIds (lib : TypeLibrary) : list TypeId :=
  pushListed (_typesById lib) [].

(** [registerBuiltInTypes], lines 181-191, over the entries of the
    table.  [defaultBaseType] is the base type that the two-argument
    constructor of [Type] gives, [newValue] the constructor
    [Value(type)]. *)
Fixpoint registerAll (less : TypeId -> TypeId -> bool)
    (defaultBaseType : TypeId) (newValue : Type_ -> Value)
    (table : list (TypeId * Z)) (lib : TypeLibrary) : Error + TypeLibrary :=
  match table with
  | [] => inr lib
  | (name, bits) :: rest =>
      let type := mkType name bits defaultBaseType in
      match _registerType less lib type with
      | inl e => inl e
      | inr lib' =>
          registerAll less defaultBaseType newValue rest
            (mkTypeLibrary
               (_typesById lib')
               (assign less name type (_builtinTypesById lib'))
               (assign less name (newValue type) (_defaultValuesById lib'))
               (_typeLibraries lib'))
      end
  end.

Definition registerBuiltInTypes (less : TypeId -> TypeId -> bool)
    (tid : TypeIds) (sizeof_time_t : Z) (defaultBaseType : TypeId)
    (newValue : Type_ -> Value) (lib : TypeLibrary) : Error + TypeLibrary :=
  registerAll less defaultBaseType newValue
    (builtinTypeInfo tid sizeof_time_t) lib.

(** Names are pairwise different keys of a map. *)
Fixpoint differentKeys (less : TypeId -> TypeId -> bool)
    (names : list TypeId) : bool :=
  match names with
  | [] => true
  | name :: rest =>
      forallb (fun other => negb (sameKey less name other)) rest
      && differentKeys less rest
  end.

(** A comparator for the instances below: the order of the upper-cased
    strings by character code. *)
Fixpoint lessCodes (a b : list ascii) : bool :=
  match a, b with
  | _, [] => false
  | [], _ :: _ => true
  | x :: a', y :: b' =>
      let m := Ascii.nat_of_ascii x in
      let n := Ascii.nat_of_ascii y in
      if (m <? n)%nat then true
      else if (n <? m)%nat then false
      else lessCodes a' b'
  end.

Definition exampleLess (a b : TypeId) : bool :=
  lessCodes (toupper <$> a) (toupper <$> b).

(** *** Integers as text *)

(** The ranges of the C integer types. *)
Definition inRange (bits : Z) (signed : bool) (z : Z) : Prop :=
  if signed then - 2 ^ (bits - 1) <= z < 2 ^ (bits - 1)
  else 0 <= z < 2 ^ bits.

Definition digitChar (d : Z) : ascii :=
  Ascii.ascii_of_nat (Z.to_nat (48 + d)).

(** The decimal digits of a natural number before [acc], most
    significant first; [fuel] bounds the number of digits. *)
Fixpoint showDigits (fuel : nat) (n : Z) (acc : list ascii) : list ascii :=
  match fuel with
  | O => acc
  | S fuel' =>
      let acc' := digitChar (n mod 10) :: acc in
      if n <? 10 then acc' else showDigits fuel' (n / 10) acc'
  end.

Definition showNatural (n : Z) : list ascii :=
  showDigits (S (Z.to_nat (Z.log2 n))) n [].

(** [os << z] for an integer [z]: decimal digits, with a minus sign for
    a negative number. *)
Definition showInt (z : Z) : list ascii :=
  if z <? 0 then "-"%char :: showNatural (- z) else showNatural z.

(** A string of decimal digits as [operator<<] writes it: not empty, and
    with a leading zero only when it is the single digit 0. *)
Definition canonical (ds : list ascii) : Prop :=
  ds <> [] /\
  Forall (fun c => isdigit c = true) ds /\
  (hd NUL ds = "0"%char -> ds = ["0"%char]).

(** [isspace] of the classic locale. *)
Definition isspace (c : ascii) : bool :=
  let n := Ascii.nat_of_ascii c in
  (n =? 32)%nat || ((9 <=? n)%nat && (n <=? 13)%nat).

Definition isodigit (c : ascii) : bool :=
  let n := Ascii.nat_of_ascii c in (48 <=? n)%nat && (n <=? 55)%nat.

Definition isxdigit (c : ascii) : bool :=
  let n := Ascii.nat_of_ascii c in
  isdigit c || ((65 <=? n)%nat && (n <=? 70)%nat)
  || ((97 <=? n)%nat && (n <=? 102)%nat).

Definition hexDigitValue (c : ascii) : Z :=
  let n := Z.of_nat (Ascii.nat_of_ascii c) in
  if isdigit c then n - 48 else if n <? 97 then n - 55 else n - 87.

Definition octalValue (digits : list ascii) : Z :=
  foldl (fun acc c => 8 * acc + digitValue c) 0 digits.

Definition hexValue (digits : list ascii) : Z :=
  foldl (fun acc c => 16 * acc + hexDigitValue c) 0 digits.

Fixpoint skipSpaces (s : list ascii) : list ascii :=
  match s with
  | c :: rest => if isspace c then skipSpaces rest else s
  | [] => []
  end.

(** The longest prefix of characters that satisfy [ok]. *)
Fixpoint span (ok : ascii -> bool) (s : list ascii) : list ascii :=
  match s with
  | c :: rest => if ok c then c :: span ok rest else []
  | [] => []
  end.

(** The integer conversions of [sscanf]. *)
Inductive Conversion : Type :=
| conv_d
| conv_i
| conv_u.

(** The digits of an input item after the sign: its value and its
    length, or [None] for a matching failure.  [%d] and [%u] take
    decimal digits; [%i] takes a hexadecimal number after [0x], an
    octal one after [0], a decimal one otherwise. *)
Definition scanDigits (conv : Conversion) (s : list ascii)
    : option (Z * nat) :=
  let decimal :=
    match span isdigit s with
    | [] => None
    | digits => Some (decimalValue digits, length digits)
    end in
  match conv with
  | conv_i =>
      match s with
      | c0 :: rest =>
          if bool_decide (c0 = "0"%char) then
            if bool_decide (toupper (hd NUL rest) = "X"%char) then
              match span isxdigit (tl rest) with
              | [] => None
              | digits => Some (hexValue digits, (2 + length digits)%nat)
              end
            else
              let digits := span isodigit s in
              Some (octalValue digits, length digits)
          else decimal
      | [] => None
      end
  | _ => decimal
  end.

(** An integer directive followed by [%n] on the C string [s]: white
    space is skipped, then an optional sign and the digits are taken.
    The result is the sign, the magnitude and the number of characters
    consumed, which [%n] stores. *)
Definition scanInteger (conv : Conversion) (s : list ascii)
    : option (bool * Z * nat) :=
  let item := skipSpaces s in
  let spaces := (length s - length item)%nat in
  let '(negative, signLength, digits) :=
    match item with
    | c :: rest =>
        if bool_decide (c = "-"%char) then (true, 1%nat, rest)
        else if bool_decide (c = "+"%char) then (false, 1%nat, rest)
        else (false, 0%nat, item)
    | [] => (false, 0%nat, item)
    end in
  match scanDigits conv digits with
  | Some (magnitude, n) =>
      Some (negative, magnitude, (spaces + signLength + n)%nat)
  | None => None
  end.

(** [(int)str.size()] *)
Definition intOfSize (size : nat) : Z :=
  let z := Z.of_nat size mod 2 ^ 32 in
  if z <? 2 ^ 31 then z else z - 2 ^ 32.

(** What [sscanf] leaves in the variable, as glibc does it where [long]
    has 64 bits: the number read is converted by [strtol], or by
    [strtoul] under [%u], and the result is cast to the type of the
    variable.  [strtol] stops at [LONG_MIN] and [LONG_MAX]; [strtoul]
    negates a number with a minus sign in [unsigned long] and stops at
    [ULONG_MAX]. *)
Definition isSigned (conv : Conversion) : bool :=
  match conv with
  | conv_u => false
  | _ => true
  end.

Definition strtol (negative : bool) (magnitude : Z) : Z :=
  Z.max (- 2 ^ 63)
    (Z.min (if negative then - magnitude else magnitude) (2 ^ 63 - 1)).

Definition strtoul (negative : bool) (magnitude : Z) : Z :=
  if 2 ^ 64 <=? magnitude then 2 ^ 64 - 1
  else if negative then (- magnitude) mod 2 ^ 64 else magnitude.

(** The cast of a [long] or an [unsigned long] to an integer type of
    [bits] bits. *)
Definition cast (bits : Z) (signed : bool) (z : Z) : Z :=
  let w := z mod 2 ^ bits in
  if signed && (2 ^ (bits - 1) <=? w) then w - 2 ^ bits else w.

Definition converted (conv : Conversion) (bits : Z) (signed : bool)
    (negative : bool) (magnitude : Z) : Z :=
  cast bits signed
    (if isSigned conv then strtol negative magnitude
     else strtoul negative magnitude).

(** *** Conversions of values *)

(** The C library as the conversions use it.  A [double] or [float] is
    its bit pattern. *)
Record Libc : Type := mkLibc {
  atof : list ascii -> Z;
  NAN_double : Z;
  NAN_float : Z;
  doubleToFloat : Z -> Z;
  floatToDouble : Z -> Z;
  intToDouble : Z -> Z;
  doubleToInt : Z -> bool -> Z -> Z;
  abs : Z -> Z;
  showDouble : Z -> Z -> list ascii;
  showFloat : Z -> list ascii;
  strftime : Z -> list ascii;
  scanDouble : list ascii -> option (Z * nat)
}.

(** The setter of [Value] that a conversion calls, with its argument. *)
Inductive Setter : Type :=
| setDouble (bits : Z)
| setFloat (bits : Z)
| setInt64 (z : Z)
| setInt32 (z : Z)
| setInt16 (z : Z)
| setInt8 (z : Z)
| setUint64 (z : Z)
| setUint32 (z : Z)
| setUint16 (z : Z)
| setUint8 (z : Z)
| setChar (c : ascii)
| setString (s : list ascii)
| setBool (b : bool)
| setDateTime (t : Z)
| setData (times : Z * Z).

(** What a call does: it returns or stores [a], throws, or runs into
    behaviour that C leaves undefined. *)
Inductive Outcome (A : Type) : Type :=
| Done (a : A)
| Thrown (e : Error)
| Undefined.

Arguments Done {A} a.
Arguments Thrown {A} e.
Arguments Undefined {A}.

(** [isnan(val)] and [val == 0] on the bits of a [double]. *)
Definition isnan (bits : Z) : bool :=
  ((bits / 2 ^ 52) mod 2 ^ 11 =? 2047) && negb (bits mod 2 ^ 52 =? 0).

Definition isZero (bits : Z) : bool := bits mod 2 ^ 63 =? 0.

(** [%02d] *)
Definition pad2 (z : Z) : list ascii :=
  let digits := showInt z in
  if (length digits <? 2)%nat then "0"%char :: digits else digits.

Definition toInt32 (z : Z) : Z :=
  let w := z mod 2 ^ 32 in if w <? 2 ^ 31 then w else w - 2 ^ 32.

Definition quote : ascii := "'"%char.

(** The character between quotes that [ValueToString] writes for a
    [TID_CHAR], lines 360-378. *)
Definition showChar (ch : ascii) : list ascii :=
  if decide (ch = NUL) then lit "\0"
  else if decide (ch = Ascii.ascii_of_nat 10) then lit "\n"
  else if decide (ch = Ascii.ascii_of_nat 13) then lit "\r"
  else if decide (ch = Ascii.ascii_of_nat 9) then lit "\t"
  else if decide (ch = Ascii.ascii_of_nat 12) then lit "\f"
  else (if bool_decide (ch = quote) || bool_decide (ch = "\"%char)
        then ["\"%char] else []) ++ [ch].


(** [ValueToString], lines 325-434. *)
Definition ValueToString (tid : TypeIds) (libc : Libc) (type : TypeId)
    (value : Value) (precision : Z) : list ascii :=
  if isNull value then
    if getMissingReason value =? 0 then lit "null"
    else "?"%char :: showInt (getMissingReason value)
  else if sameId (TID_DOUBLE tid) type then
    let val := getDouble value in
    let val := if isnan val || isZero val then abs libc val else val in
    showDouble libc precision val
  else if sameId (TID_INT64 tid) type then showInt (getInt64 value)
  else if sameId (TID_INT32 tid) type then showInt (getInt32 value)
  else if sameId (TID_STRING tid) type then
    match getString value with
    | None => lit "null"
    | Some str => quote :: tidStringQuote str (lit "\'") ++ [quote]
    end
  else if sameId (TID_CHAR tid) type then
    quote :: showChar (getChar value) ++ [quote]
  else if sameId (TID_FLOAT tid) type then showFloat libc (getFloat value)
  else if sameId (TID_BOOL tid) type || sameId (TID_INDICATOR tid) type then
    if getBool value then lit "true" else lit "false"
  else if sameId (TID_DATETIME tid) type then
    quote :: strftime libc (getDateTime value) ++ [quote]
  else if sameId (TID_DATETIMETZ tid) type then
    let '(seconds, offset) := dataTimes value in
    let sign := if 0 <? offset then "+"%char else "-"%char in
    let aoffset := if 0 <? offset then offset else offset * -1 in
    quote :: strftime libc seconds
      ++ " "%char :: sign :: pad2 (Z.quot (toInt32 aoffset) 3600)
      ++ ":"%char :: pad2 (Z.quot (toInt32 (Z.rem aoffset 3600)) 60)
      ++ [quote]
  else if sameId (TID_INT8 tid) type then showInt (getInt8 value)
  else if sameId (TID_INT16 tid) type then showInt (getInt16 value)
  else if sameId (TID_UINT8 tid) type then showInt (getUint8 value)
  else if sameId (TID_UINT16 tid) type then showInt (getUint16 value)
  else if sameId (TID_UINT32 tid) type then showInt (getUint32 value)
  else if sameId (TID_UINT64 tid) type then showInt (getUint64 value)
  else if sameId (TID_VOID tid) type then lit "<void>"
  else "<"%char :: type ++ [">"%char].

(** One integer branch of [StringToValue]: [sscanf] with an integer
    directive and [%n], the test that the whole string was consumed,
    and the extra test [refused] on the number read. *)
Definition parseInteger (conv : Conversion) (bits : Z) (signed : bool)
    (refused : Z -> bool) (set : Z -> Setter) (str1 str type : list ascii)
    : Outcome Setter :=
  match scanInteger conv (c_str str1) with
  | None => Thrown (FAILED_PARSE_STRING str type)
  | Some (negative, magnitude, n) =>
      let val := converted conv bits signed negative magnitude in
      if negb (Z.of_nat n =? intOfSize (length str1)) || refused val
      then Thrown (FAILED_PARSE_STRING str type)
      else Done (set val)
  end.

(** [StringToValue], lines 688-776: the setter called on [value].
    [fixTicket4273] tells whether [FIX_TICKET_4273] is defined;
    [parseDateTime] and [parseDateTimeTz] stand for the two functions of
    that name, whose scanning of dates is not modelled. *)
Definition StringToValue (tid : TypeIds) (libc : Libc)
    (fixTicket4273 : bool)
    (parseDateTime : list ascii -> Error + Z)
    (parseDateTimeTz : list ascii -> Error + Z * Z)
    (type : TypeId) (str : list ascii) : Outcome Setter :=
  if sameId (TID_DOUBLE tid) type then
    if bool_decide (str = lit "NA") then Done (setDouble (NAN_double libc))
    else Done (setDouble (atof libc (c_str str)))
  else if sameId (TID_INT64 tid) type then
    let str1 := if fixTicket4273 then stripLeadingZeroes str else str in
    parseInteger conv_i 64 true (fun _ => false) setInt64 str1 str type
  else if sameId (TID_INT32 tid) type then
    parseInteger conv_d 32 true (fun _ => false) setInt32 str str type
  else if sameId (TID_CHAR tid) type then Done (setChar (hd NUL str))
  else if sameId (TID_STRING tid) type then Done (setString (c_str str))
  else if sameId (TID_FLOAT tid) type then
    if bool_decide (str = lit "NA") then Done (setFloat (NAN_float libc))
    else Done (setFloat (doubleToFloat libc (atof libc (c_str str))))
  else if sameId (TID_INT8 tid) type then
    parseInteger conv_d 16 true
      (fun val => (127 <? val) || (val <? -127)) setInt8 str str type
  else if sameId (TID_INT16 tid) type then
    parseInteger conv_d 16 true (fun _ => false) setInt16 str str type
  else if sameId (TID_UINT8 tid) type then
    parseInteger conv_u 16 false (fun val => 255 <? val) setUint8
      str str type
  else if sameId (TID_UINT16 tid) type then
    parseInteger conv_u 16 false (fun _ => false) setUint16 str str type
  else if sameId (TID_UINT32 tid) type then
    parseInteger conv_u 32 false (fun _ => false) setUint32 str str type
  else if sameId (TID_UINT64 tid) type then
    parseInteger conv_u 64 false (fun _ => false) setUint64 str str type
  else if sameId (TID_INDICATOR tid) type || sameId (TID_BOOL tid) type then
    if bool_decide (str = lit "true") then Done (setBool true)
    else if bool_decide (str = lit "false") then Done (setBool false)
    else Thrown (TYPE_CONVERSION_ERROR2 str (lit "string") (lit "bool"))
  else if sameId (TID_DATETIME tid) type then
    match parseDateTime str with
    | inl e => Thrown e
    | inr t => Done (setDateTime t)
    end
  else if sameId (TID_DATETIMETZ tid) type then
    match parseDateTimeTz str with
    | inl e => Thrown e
    | inr times => Done (setData times)
    end
  else Thrown (TYPE_CONVERSION_ERROR2 str (lit "string") type).

(** [char] as a number: the type is signed. *)
Definition charCode (c : ascii) : Z :=
  let n := Z.of_nat (Ascii.nat_of_ascii c) in
  if n <? 128 then n else n - 256.

(** [ValueToDouble], lines 778-818: the bits of the [double]
    returned. *)
Definition ValueToDouble (tid : TypeIds) (libc : Libc) (type : TypeId)
    (value : Value) : Outcome Z :=
  if sameId (TID_DOUBLE tid) type then Done (getDouble value)
  else if sameId (TID_INT64 tid) type then
    Done (intToDouble libc (getInt64 value))
  else if sameId (TID_INT32 tid) type then
    Done (intToDouble libc (getInt32 value))
  else if sameId (TID_CHAR tid) type then
    Done (intToDouble libc (charCode (getChar value)))
  else if sameId (TID_STRING tid) type then
    match getString value with
    | None => Undefined
    | Some str =>
        match scanDouble libc (c_str str) with
        | Some (d, n) =>
            if Z.of_nat n =? intOfSize (length (c_str str)) then Done d
            else Thrown (FAILED_PARSE_STRING (c_str str) (lit "double"))
        | None => Thrown (FAILED_PARSE_STRING (c_str str) (lit "double"))
        end
    end
  else if sameId (TID_FLOAT tid) type then
    Done (floatToDouble libc (getFloat value))
  else if sameId (TID_INT8 tid) type then
    Done (intToDouble libc (getInt8 value))
  else if sameId (TID_INT16 tid) type then
    Done (intToDouble libc (getInt16 value))
  else if sameId (TID_UINT8 tid) type then
    Done (intToDouble libc (getUint8 value))
  else if sameId (TID_UINT16 tid) type then
    Done (intToDouble libc (getUint16 value))
  else if sameId (TID_UINT32 tid) type then
    Done (intToDouble libc (getUint32 value))
  else if sameId (TID_UINT64 tid) type then
    Done (intToDouble libc (getUint64 value))
  else if sameId (TID_INDICATOR tid) type || sameId (TID_BOOL tid) type then
    Done (intToDouble libc (if getBool value then 1 else 0))
  else if sameId (TID_DATETIME tid) type then
    Done (intToDouble libc (getDateTime value))
  else Thrown (TYPE_CONVERSION_ERROR type (lit "double")).

(** [DoubleToValue], lines 820-854: the setter called on [value].
    [doubleToInt bits signed d] is the cast of [d] to the integer type
    of that width. *)
Definition DoubleToValue (tid : TypeIds) (libc : Libc) (type : TypeId)
    (d : Z) : Outcome Setter :=
  if sameId (TID_DOUBLE tid) type then Done (setDouble d)
  else if sameId (TID_INT64 tid) type then
    Done (setInt64 (doubleToInt libc 64 true d))
  else if sameId (TID_UINT32 tid) type then
    Done (setUint32 (doubleToInt libc 32 false d))
  else if sameId (TID_CHAR tid) type then
    Done (setChar (Ascii.ascii_of_nat
                     (Z.to_nat (doubleToInt libc 8 true d mod 256))))
  else if sameId (TID_FLOAT tid) type then
    Done (setFloat (doubleToFloat libc d))
  else if sameId (TID_INT8 tid) type then
    Done (setInt8 (doubleToInt libc 8 true d))
  else if sameId (TID_INT16 tid) type then
    Done (setInt32 (doubleToInt libc 32 true d))
  else if sameId (TID_UINT8 tid) type then
    Done (setUint8 (doubleToInt libc 8 false d))
  else if sameId (TID_UINT16 tid) type then
    Done (setUint16 (doubleToInt libc 16 false d))
  else if sameId (TID_UINT64 tid) type then
    Done (setUint64 (doubleToInt libc 64 false d))
  else if sameId (TID_INDICATOR tid) type || sameId (TID_BOOL tid) type then
    Done (setBool (negb (isZero d)))
  else if sameId (TID_STRING tid) type then
    Done (setString (c_str (showDouble libc 6 d)))
  else if sameId (TID_DATETIME tid) type then
    Done (setDateTime (doubleToInt libc 64 true d))
  else Thrown (TYPE_CONVERSION_ERROR (lit "double") type).

(** The number that a sign and decimal digits denote. *)
Definition signedValue (sg ds : list ascii) : Z :=
  if bool_decide (sg = ["-"%char]) then - decimalValue ds
  else decimalValue ds.

(** What [sscanf] leaves in the variable for a sign and decimal
    digits. *)
Definition scanned (conv : Conversion) (bits : Z) (signed : bool)
    (sg ds : list ascii) : Z :=
  converted conv bits signed (bool_decide (sg = ["-"%char]))
    (decimalValue ds).

(** The types for which [StringToValue] scans a decimal number, each
    with the directive, the width and signedness of the variable that
    [sscanf] fills, the least and the greatest number that passes the
    tests after the scan, and the setter. *)
Definition decimalTypes (tid : TypeIds)
    : list (TypeId * (Conversion * Z * bool) * (Z * Z) * (Z -> Setter)) :=
  [(TID_INT32 tid, (conv_d, 32, true), (- 2 ^ 31, 2 ^ 31 - 1), setInt32);
   (TID_INT8 tid, (conv_d, 16, true), (-127, 127), setInt8);
   (TID_INT16 tid, (conv_d, 16, true), (- 2 ^ 15, 2 ^ 15 - 1), setInt16);
   (TID_UINT8 tid, (conv_u, 16, false), (0, 255), setUint8);
   (TID_UINT16 tid, (conv_u, 16, false), (0, 2 ^ 16 - 1), setUint16);
   (TID_UINT32 tid, (conv_u, 32, false), (0, 2 ^ 32 - 1), setUint32);
   (TID_UINT64 tid, (conv_u, 64, false), (0, 2 ^ 64 - 1), setUint64)].

(** All the names, in the order of the fields of [TypeIds]. *)
Definition allIds (tid : TypeIds) : list TypeId :=
  [TID_INDICATOR tid; TID_CHAR tid; TID_INT8 tid; TID_INT16 tid;
   TID_INT32 tid; TID_INT64 tid; TID_UINT8 tid; TID_UINT16 tid;
   TID_UINT32 tid; TID_UINT64 tid; TID_FLOAT tid; TID_DOUBLE tid;
   TID_BOOL tid; TID_STRING tid; TID_DATETIME tid; TID_VOID tid;
   TID_BINARY tid; TID_DATETIMETZ tid].

(** Instances for the properties below: a C library whose functions
    return 0 or nothing, and a value whose accessors return small
    numbers. *)
Definition exampleLibc : Libc :=
  mkLibc (fun _ => 0) 0 0 (fun d => d) (fun f => f) (fun z => z)
    (fun _ _ d => d) (fun d => d) (fun _ _ => lit "0") (fun _ => lit "0")
    (fun _ => lit "1970-01-01 00:00:00") (fun _ => None).

Definition exampleValue : Value :=
  mkValue false (-1) 0 0 (-42) 17 (-300) (-128) 18446744073709551615
    4000000000 65535 200 "'"%char (Some (lit "it's")) true 0 (0, 0).

(** A library with one registered type, a library with a generic type
    [fixed_*], and what [_getType] makes of [fixed_16] in it. *)
Definition examplePoint : Type_ := mkType (lit "point") 128 (lit "void").

Definition exampleLibrary : TypeLibrary :=
  mkTypeLibrary [(lit "point", examplePoint)] [] [] [lit "point"].

Definition exampleAtoi (s : list ascii) : Z :=
  decimalValue (span isdigit s).

Definition exampleGeneric : TypeLibrary :=
  mkTypeLibrary [(lit "fixed_*", mkType (lit "fixed_*") 0 (lit "binary"))]
    [] [] [lit "fixed_*"].

Definition exampleLimited : TypeLibrary * Type_ :=
  let limited := mkType (lit "fixed_16") 128 (lit "binary") in
  (mkTypeLibrary
     [(lit "fixed_*", mkType (lit "fixed_*") 0 (lit "binary"));
      (lit "fixed_16", limited)]
     [] [] [lit "fixed_*"; lit "fixed_16"],
   limited).

Definition exampleParseDateTime (str : list ascii) : Error + Z :=
  inl INVALID_SPECIFIED_DATE.

Definition exampleParseDateTimeTz (str : list ascii) : Error + Z * Z :=
  inl INVALID_SPECIFIED_DATE.


End TypeSystem.

(** * Properties *)

(** ** Arithmetic of [uint64_t] *)

Lemma U64_modulus_pos : 0 < U64.modulus.
Proof. reflexivity. Qed.

Lemma U64_wrap_small (z : Z) : U64.in_range z -> U64.wrap z = z.
Proof. intros H. apply Z.mod_small. exact H. Qed.

Lemma U64_wrap_range (z : Z) : U64.in_range (U64.wrap z).
Proof. apply Z.mod_pos_bound. exact U64_modulus_pos. Qed.

Lemma U64_add_wrap_l (a b : Z) : U64.add (U64.wrap a) b = U64.wrap (a + b).
Proof. unfold U64.add, U64.wrap. apply Zplus_mod_idemp_l. Qed.

Lemma U64_sub_wrap_l (a b : Z) : U64.sub (U64.wrap a) b = U64.wrap (a - b).
Proof. unfold U64.sub, U64.wrap. apply Zminus_mod_idemp_l. Qed.

Lemma atLeastOne_ge (x : Z) : 1 <= Channel.atLeastOne x.
Proof. unfold Channel.atLeastOne. destruct (Z.ltb_spec 1 x); lia. Qed.



(** ** Channels *)

Lemma isActive_empty (c : Channel.t) :
  Channel._msgQ c = [] -> Channel.isActive c = false.
Proof.
  intros H. unfold Channel.isActive. rewrite H. apply andb_false_r.
Qed.

Lemma isActive_true (c : Channel.t) :
  Channel.isActive c = true <->
  Channel.inFlight c < Channel._remoteSize c /\ Channel._msgQ c <> [].
Proof.
  unfold Channel.isActive. rewrite andb_true_iff, Z.ltb_lt.
  destruct (Channel._msgQ c); simpl; split; intros [H1 H2]; split;
    congruence || assumption.
Qed.

Lemma inFlight_exact (c : Channel.t) :
  U64.in_range (Channel._localSeqNum c) ->
  0 <= Channel._localSeqNumOnPeer c ->
  Channel.seqNumsOrdered c ->
  Channel.inFlight c = Channel._localSeqNum c - Channel._localSeqNumOnPeer c.
Proof.
  unfold Channel.seqNumsOrdered, Channel.inFlight, U64.sub, U64.in_range.
  intros Hr Hp Ho. apply U64_wrap_small. unfold U64.in_range. lia.
Qed.

(** C2: [Channel::isActive] returns true exactly when the peer's
    capacity exceeds the in-flight count and the queue is not empty,
    that is when the available credit [remoteSize - inFlight] is
    positive and the queue is not empty.  The in-flight count is the
    [uint64_t] difference the code computes; under the asserted order of
    the two sequence numbers it is their plain difference. *)
Theorem Channel_isActive_spec (c : Channel.t) :
  (Channel.isActive c = true <->
     Channel._remoteSize c > Channel.inFlight c /\ Channel._msgQ c <> []) /\
  (Channel.isActive c = true <->
     0 < Channel._remoteSize c - Channel.inFlight c /\ Channel._msgQ c <> []) /\
  (U64.in_range (Channel._localSeqNum c) ->
   0 <= Channel._localSeqNumOnPeer c ->
   Channel.seqNumsOrdered c ->
   Channel.inFlight c = Channel._localSeqNum c - Channel._localSeqNumOnPeer c).
Proof.
  split; [|split].
  - rewrite isActive_true. intuition lia.
  - rewrite isActive_true. intuition lia.
  - apply inFlight_exact.
Qed.

(** C3: [Channel::validateRemoteState] returns true exactly when the
    channel's [localSeq] is at least the sequence number the peer
    reports to have observed; neither the advertised size nor the
    remote sequence number matters; and a normal control frame that
    fails the validation ends in a fatal protocol violation. *)
Theorem Channel_validateRemoteState_spec (c : Channel.t)
    (rSize localSeqNum remoteSeqNum : Z) :
  (Channel.validateRemoteState c rSize localSeqNum remoteSeqNum = true <->
     Channel._localSeqNum c >= localSeqNum) /\
  (forall rSize' remoteSeqNum',
     Channel.validateRemoteState c rSize' localSeqNum remoteSeqNum' =
     Channel.validateRemoteState c rSize localSeqNum remoteSeqNum) /\
  (forall nm q mqt,
     MultiChannelQueue.channel q mqt = Some c ->
     Channel.validateRemoteState c rSize localSeqNum remoteSeqNum = false ->
     MultiChannelQueue.setRemoteState nm q mqt rSize
       (MultiChannelQueue._localGenId q) (MultiChannelQueue._remoteGenId q)
       localSeqNum remoteSeqNum = Err ProtocolViolation /\
     isFatal ProtocolViolation = true).
Proof.
  split; [|split].
  - unfold Channel.validateRemoteState. rewrite Z.leb_le. lia.
  - reflexivity.
  - intros nm q mqt Hc Hv. split; [|reflexivity].
    unfold MultiChannelQueue.setRemoteState, MultiChannelQueue.channel in *.
    rewrite !Z.eqb_refl. simpl.
    destruct (MultiChannelQueue._channels q !! mqt) as [slot|] eqn:E;
      simpl in Hc; [|discriminate].
    subst slot. simpl. rewrite Hv. reflexivity.
Qed.

Lemma admissible_true (c : Channel.t) :
  Channel.admissible c = true <->
  Z.of_nat (length (Channel._msgQ c)) < Channel._sendQueueLimit c /\
  Channel.inFlight c < Channel._sendQueueLimit c.
Proof.
  unfold Channel.admissible. rewrite andb_true_iff, !Z.ltb_lt. reflexivity.
Qed.

(** C1: [Channel::pushBack] succeeds, appending the message and
    incrementing [localSeq], exactly when the queue is shorter than the
    send limit and the in-flight count is below the send limit;
    otherwise it fails with [Overflow] and yields no new channel state.
    The peer's advertised size does not enter the decision. *)
Theorem Channel_pushBack_admission (c : Channel.t) (msg : MessageDesc) :
  let admitted :=
    Z.of_nat (length (Channel._msgQ c)) < Channel._sendQueueLimit c /\
    Channel.inFlight c < Channel._sendQueueLimit c in
  (isOk (Channel.pushBack c msg) = true <-> admitted) /\
  (admitted ->
   exists c' status,
     Channel.pushBack c msg = Ok (c', status) /\
     Channel._msgQ c' = Channel._msgQ c ++ [msg] /\
     Channel._localSeqNum c' = U64.add (Channel._localSeqNum c) 1 /\
     Channel._localSeqNumOnPeer c' = Channel._localSeqNumOnPeer c /\
     Channel._remoteSeqNum c' = Channel._remoteSeqNum c /\
     Channel._remoteSize c' = Channel._remoteSize c /\
     Channel._sendQueueLimit c' = Channel._sendQueueLimit c) /\
  (~ admitted -> Channel.pushBack c msg = Err Overflow) /\
  (forall remoteSize,
     isOk (Channel.pushBack (Channel.withRemoteSize c remoteSize) msg) =
     isOk (Channel.pushBack c msg)) /\
  (U64.in_range (Channel._localSeqNum c) ->
   0 <= Channel._localSeqNumOnPeer c ->
   Channel.seqNumsOrdered c ->
   (isOk (Channel.pushBack c msg) = true <->
    Z.of_nat (length (Channel._msgQ c)) < Channel._sendQueueLimit c /\
    Channel._localSeqNum c - Channel._localSeqNumOnPeer c
      < Channel._sendQueueLimit c)).
Proof.
  intros admitted. subst admitted.
  assert (isOk (Channel.pushBack c msg) = true <->
          Channel.admissible c = true) as Hok.
  { unfold Channel.pushBack.
    destruct (Channel.admissible c); simpl; intuition congruence. }
  split; [|split; [|split; [|split]]].
  - rewrite Hok. apply admissible_true.
  - rewrite <- admissible_true. unfold Channel.pushBack.
    intros H. rewrite H. eexists; eexists; split; [reflexivity|].
    simpl. repeat split; reflexivity.
  - rewrite <- admissible_true. unfold Channel.pushBack.
    intros H. destruct (Channel.admissible c); congruence.
  - intros r. unfold Channel.pushBack.
    assert (Channel.admissible (Channel.withRemoteSize c r) =
            Channel.admissible c) as -> by reflexivity.
    destruct (Channel.admissible c); reflexivity.
  - intros Hr Hp Ho. rewrite Hok, admissible_true.
    rewrite (inFlight_exact c Hr Hp Ho). reflexivity.
Qed.


Lemma run_snoc (c : Channel.t) (ops : list Channel.Op) (op : Channel.Op) :
  Channel.run c (ops ++ [op]) = Channel.step (Channel.run c ops) op.
Proof. unfold Channel.run. rewrite foldl_app. reflexivity. Qed.





Lemma step_queue_empty (c : Channel.t) (op : Channel.Op) :
  Channel.isPush op = false ->
  Channel._msgQ c = [] ->
  Channel._msgQ (Channel.step c op) = [].
Proof.
  intros Hop Hc. destruct op; simpl in *; try discriminate; try assumption.
  - unfold Channel.popFront. rewrite (isActive_empty c Hc). exact Hc.
  - reflexivity.
Qed.

Lemma run_queue_empty (c : Channel.t) (ops : list Channel.Op) :
  forallb (fun op => negb (Channel.isPush op)) ops = true ->
  Channel._msgQ c = [] ->
  Channel._msgQ (Channel.run c ops) = [].
Proof.
  intros Hops Hc. induction ops as [|op ops IH] using rev_ind; [exact Hc|].
  rewrite forallb_app, andb_true_iff in Hops. destruct Hops as [Hops Hop].
  simpl in Hop. rewrite andb_true_r, negb_true_iff in Hop.
  rewrite run_snoc. apply step_queue_empty; [exact Hop|]. apply IH, Hops.
Qed.

(** C9: a freshly constructed channel has all three sequence numbers 0
    and an empty queue; its in-flight count is 0, the two local
    sequence numbers are in order, and it is inactive, and stays so
    under any operations as long as none of them is a push. *)
Theorem Channel_new_spec (nm : NetworkManager) (instanceId : InstanceID)
    (mqt : MessageQueueType) :
  let c := Channel.new nm instanceId mqt in
  Channel._localSeqNum c = 0 /\
  Channel._remoteSeqNum c = 0 /\
  Channel._localSeqNumOnPeer c = 0 /\
  Channel._msgQ c = [] /\
  Channel.inFlight c = 0 /\
  Channel.seqNumsOrdered c /\
  Channel.isActive c = false /\
  (forall ops,
     forallb (fun op => negb (Channel.isPush op)) ops = true ->
     Channel.isActive (Channel.run c ops) = false).
Proof.
  intros c. subst c. repeat split.
  - unfold Channel.seqNumsOrdered. simpl. lia.
  - apply isActive_empty. reflexivity.
  - intros ops Hops. apply isActive_empty.
    apply run_queue_empty; [exact Hops|reflexivity].
Qed.

(** ** Connection state *)

(** C10: [Connection::isConnected] returns true only in the
    [CONNECTED] state; it returns false in [NOT_CONNECTED] and in
    [CONNECT_IN_PROGRESS], whatever the message queue holds. *)
Theorem Connection_isConnected_spec (conn : Connection.t) :
  (Connection.isConnected conn = true <->
     Connection._connectionState conn = Connection.CONNECTED) /\
  (Connection._connectionState conn = Connection.NOT_CONNECTED ->
     Connection.isConnected conn = false) /\
  (Connection._connectionState conn = Connection.CONNECT_IN_PROGRESS ->
     Connection.isConnected conn = false) /\
  (forall queue,
     Connection.isConnected
       (Connection.mk queue (Connection._instanceID conn)
          (Connection._sourceInstanceID conn)
          (Connection._connectionState conn)
          (Connection._isSending conn)) =
     Connection.isConnected conn).
Proof.
  unfold Connection.isConnected.
  destruct (Connection._connectionState conn); simpl;
    repeat split; intros; congruence.
Qed.

(** ** Generation ids *)

Lemma U64_mul_add_wrap (a b c : Z) :
  U64.add (U64.mul (U64.wrap a) b) (U64.wrap c) = U64.wrap (a * b + c).
Proof.
  unfold U64.add, U64.mul, U64.wrap.
  rewrite Z.mul_mod_idemp_l by (unfold U64.modulus; lia).
  rewrite <- Z.add_mod by (unfold U64.modulus; lia).
  reflexivity.
Qed.

(** C6, as the code has it: on a build without [__APPLE__] the
    generation id is seconds * 10^9 + nanoseconds of the
    [CLOCK_MONOTONIC] reading, reduced to [uint64_t], and does not
    depend on the wall clock; on a build with [__APPLE__] it is
    seconds * 10^9 + microseconds * 1000 of the [gettimeofday] reading
    and does not depend on the monotonic clock.  A constructed queue
    carries that value as its [localGenId]. *)
Theorem getNextGenId_source (os : SystemClocks) :
  (forall ts,
     clock_gettime_MONOTONIC os = Some ts ->
     getNextGenId false os =
       inr (U64.wrap (ts_sec ts * billion + ts_nsec ts)) /\
     (U64.in_range (ts_sec ts * billion + ts_nsec ts) ->
      getNextGenId false os = inr (ts_sec ts * billion + ts_nsec ts))) /\
  (forall wall,
     getNextGenId false (mkSystemClocks (clock_gettime_MONOTONIC os) wall) =
     getNextGenId false os) /\
  (forall tv,
     gettimeofday os = Some tv ->
     getNextGenId true os =
       inr (U64.wrap (tv_sec tv * billion + tv_usec tv * 1000))) /\
  (forall mono,
     getNextGenId true (mkSystemClocks mono (gettimeofday os)) =
     getNextGenId true os) /\
  (forall nm apple instanceId q,
     MultiChannelQueue.new nm apple os instanceId = inr q ->
     getNextGenId apple os = inr (MultiChannelQueue._localGenId q)).
Proof.
  split; [|split; [|split; [|split]]].
  - intros ts Hts. unfold getNextGenId. rewrite Hts, U64_mul_add_wrap.
    split; [reflexivity|].
    intros Hr. rewrite U64_wrap_small by exact Hr. reflexivity.
  - reflexivity.
  - intros tv Htv. unfold getNextGenId. rewrite Htv, U64_mul_add_wrap.
    reflexivity.
  - reflexivity.
  - intros nm apple instanceId q. unfold MultiChannelQueue.new.
    destruct (getNextGenId apple os); intros H; [discriminate|].
    injection H as <-. reflexivity.
Qed.

(** C6 fails as stated: on an [__APPLE__] build the generation id is
    taken from [gettimeofday], not from the monotonic reading, and it
    changes with the wall clock. *)
Lemma getNextGenId_wall_clock :
  let mono := Some (mkTimespec 100 5) in
  let os := mkSystemClocks mono (Some (mkTimeval 1700000000 250)) in
  let os' := mkSystemClocks mono (Some (mkTimeval 1700000001 250)) in
  getNextGenId true os = inr 1700000000000250000 /\
  getNextGenId true os <> inr (100 * billion + 5) /\
  getNextGenId true os' <> getNextGenId true os.
Proof. vm_compute. repeat split; discriminate. Qed.

(** ** Control frames *)

(** A frame can report an older generation of ours together with a
    newer generation of the peer.  No handler both treats every frame
    with a newer peer generation as a restart and drops every frame
    with an older generation of ours unchanged: the first must change
    [remoteGenId], the second must not. *)
Lemma restart_and_stale_overlap
    (handle : MultiChannelQueue.t -> Z -> Z ->
              Result MultiChannelQueue.Outcome) :
  (forall q localGenId remoteGenId,
     MultiChannelQueue._remoteGenId q < remoteGenId ->
     exists q' status aborted,
       handle q localGenId remoteGenId = Ok (q', status, aborted) /\
       MultiChannelQueue._remoteGenId q' = remoteGenId) ->
  (forall q localGenId remoteGenId,
     localGenId < MultiChannelQueue._localGenId q ->
     handle q localGenId remoteGenId = Ok (q, None, [])) ->
  False.
Proof.
  intros Hrestart Hstale.
  destruct (Hrestart Example.fresh 4 7) as (q' & status & aborted & Hq' & Hgen);
    [reflexivity|].
  rewrite (Hstale Example.fresh 4 7) in Hq' by reflexivity.
  injection Hq' as <- _ _. discriminate Hgen.
Qed.

Lemma channel_lookup (q : MultiChannelQueue.t) (i : MessageQueueType)
    (c : Channel.t) :
  MultiChannelQueue.channel q i = Some c <->
  MultiChannelQueue._channels q !! i = Some (Some c).
Proof.
  unfold MultiChannelQueue.channel.
  destruct (MultiChannelQueue._channels q !! i) as [[c'|]|]; simpl;
    split; intros H; congruence.
Qed.

Lemma In_slotMessages (chs : list (option Channel.t)) (m : MessageDesc) :
  In m (concat (MultiChannelQueue.slotMessages <$> chs)) <->
  exists i c, chs !! i = Some (Some c) /\ In m (Channel._msgQ c).
Proof.
  rewrite in_concat. split.
  - intros (msgs & Hmsgs & Hm).
    apply list_elem_of_In, list_elem_of_fmap in Hmsgs as (slot & -> & Hslot).
    apply list_elem_of_lookup in Hslot as [i Hi].
    destruct slot as [c|]; simpl in Hm; [|contradiction].
    exists i, c. split; assumption.
  - intros (i & c & Hi & Hm). exists (Channel._msgQ c). split; [|exact Hm].
    apply list_elem_of_In, list_elem_of_fmap.
    exists (Some c). split; [reflexivity|].
    apply list_elem_of_lookup. exists i. exact Hi.
Qed.

Lemma admissible_clean (c : Channel.t) :
  Channel._msgQ c = [] ->
  Channel._localSeqNum c = 0 ->
  Channel._localSeqNumOnPeer c = 0 ->
  1 <= Channel._sendQueueLimit c ->
  Channel.admissible c = true.
Proof.
  intros Hq Hl Hp Hs. apply admissible_true.
  unfold Channel.inFlight. rewrite Hq, Hl, Hp. simpl.
  change (U64.sub 0 0) with 0. lia.
Qed.

Lemma pushBack_clean (nm : NetworkManager) (q : MultiChannelQueue.t)
    (i : MessageQueueType) (slot : option Channel.t) (msg : MessageDesc) :
  MultiChannelQueue._channels q !! i = Some slot ->
  (forall c, slot = Some c ->
     Channel._msgQ c = [] /\ Channel._localSeqNum c = 0 /\
     Channel._localSeqNumOnPeer c = 0 /\ 1 <= Channel._sendQueueLimit c) ->
  exists q'' status c'',
    MultiChannelQueue.pushBack nm q i msg = Ok (q'', status) /\
    MultiChannelQueue.channel q'' i = Some c'' /\
    Channel._localSeqNum c'' = 1.
Proof.
  intros Hi Hslot. unfold MultiChannelQueue.pushBack. rewrite Hi.
  set (c := default (Channel.new nm (MultiChannelQueue._instanceId q) i) slot).
  assert (Channel._msgQ c = [] /\ Channel._localSeqNum c = 0 /\
          Channel._localSeqNumOnPeer c = 0 /\ 1 <= Channel._sendQueueLimit c)
    as (Hq & Hl & Hp & Hs).
  { subst c. destruct slot as [c0|]; simpl.
    - apply Hslot. reflexivity.
    - repeat split. apply atLeastOne_ge. }
  unfold Channel.pushBack. rewrite (admissible_clean c Hq Hl Hp Hs).
  eexists; eexists; exists (Channel.pushed c msg).
  split; [reflexivity|]. split.
  - apply channel_lookup. simpl. apply list_lookup_insert_eq.
    apply lookup_lt_Some in Hi. exact Hi.
  - simpl. rewrite Hl. reflexivity.
Qed.

(** C4: a control frame whose peer generation exceeds the stored
    [remoteGenId] discards every pending message of every channel,
    running the abort callback of each, resets the sequence numbers of
    every channel to 0 and stores the new peer generation; the next
    push on any class then yields [localSeq = 1]. *)
Theorem setRemoteState_peer_restart (nm : NetworkManager)
    (q : MultiChannelQueue.t) (mqt : MessageQueueType)
    (rSize localGenId remoteGenId localSeqNum remoteSeqNum : Z) :
  MultiChannelQueue._remoteGenId q < remoteGenId ->
  exists q' aborted,
    MultiChannelQueue.setRemoteState nm q mqt rSize localGenId remoteGenId
      localSeqNum remoteSeqNum = Ok (q', None, aborted) /\
    (forall m,
       In m aborted <->
       exists i c,
         MultiChannelQueue.channel q i = Some c /\ In m (Channel._msgQ c)) /\
    MultiChannelQueue._remoteGenId q' = remoteGenId /\
    (forall i c',
       MultiChannelQueue.channel q' i = Some c' ->
       Channel._msgQ c' = [] /\
       Channel._localSeqNum c' = 0 /\
       Channel._localSeqNumOnPeer c' = 0) /\
    (forall i,
       is_Some (MultiChannelQueue.channel q' i) <->
       is_Some (MultiChannelQueue.channel q i)) /\
    (MultiChannelQueue.wellFormed nm q ->
     forall i msg,
       (i < mqtMax nm)%nat ->
       exists q'' status c'',
         MultiChannelQueue.pushBack nm q' i msg = Ok (q'', status) /\
         MultiChannelQueue.channel q'' i = Some c'' /\
         Channel._localSeqNum c'' = 1).
Proof.
  intros Hgen. unfold MultiChannelQueue.setRemoteState.
  destruct (Z.eqb_spec remoteGenId (MultiChannelQueue._remoteGenId q)); [lia|].
  simpl. destruct (Z.ltb_spec (MultiChannelQueue._remoteGenId q) remoteGenId);
    [|lia].
  eexists; eexists. split; [reflexivity|].
  assert (forall i,
    MultiChannelQueue._channels
      (MultiChannelQueue.restarted (MultiChannelQueue.abortMessages q).1
         remoteGenId) !! i =
    (fun slot => MultiChannelQueue.onChannel Channel.resetSeqNums
       (MultiChannelQueue.onChannel
          (fun c => (Channel.abortMessages c).1) slot))
      <$> (MultiChannelQueue._channels q !! i)) as Hlook.
  { intros i. simpl. rewrite !list_lookup_fmap.
    destruct (MultiChannelQueue._channels q !! i); reflexivity. }
  split; [|split; [|split; [|split]]].
  - intros m. rewrite In_slotMessages.
    split; intros (i & c & Hc & Hm); exists i, c;
      (split; [apply channel_lookup; exact Hc|exact Hm]).
  - reflexivity.
  - intros i c' Hc'. apply channel_lookup in Hc'. rewrite Hlook in Hc'.
    apply fmap_Some in Hc' as (slot & _ & Hc').
    destruct slot as [c|]; simpl in Hc'; [|discriminate].
    injection Hc' as ->. repeat split.
  - intros i. unfold MultiChannelQueue.channel. rewrite Hlook.
    destruct (_ !! i) as [[c|]|]; simpl;
      split; intros [x Hx]; try discriminate; eexists; reflexivity.
  - intros [Hlen Hlim] i msg Hi.
    assert (exists slot, MultiChannelQueue._channels q !! i = Some slot)
      as [slot Hslot].
    { apply lookup_lt_is_Some. rewrite Hlen. exact Hi. }
    eapply pushBack_clean.
    + rewrite Hlook, Hslot. reflexivity.
    + intros c Hc. destruct slot as [c0|]; simpl in Hc; [|discriminate].
      injection Hc as <-. repeat split. simpl.
      rewrite Forall_lookup in Hlim. apply (Hlim i (Some c0) Hslot).
Qed.

(** ** The cached counters of the queue *)

(** Four pushes on one class fill the window of its channel: the
    channel is then not active, while the active count, incremented by
    the first push, still is 1. *)
Lemma pushBack_window_closed :
  MultiChannelQueue.size Example.saturated = 4 /\
  MultiChannelQueue.queuedMessages Example.saturated = 4%nat /\
  MultiChannelQueue.activeChannels Example.saturated = 0%nat /\
  MultiChannelQueue._activeChannelCount Example.saturated = 1.
Proof. repeat split. Qed.

(** ** Instances on the small configuration *)

Lemma setRemoteState_peer_restart_loaded :
  MultiChannelQueue._remoteGenId Example.loaded < 7 /\
  exists q' aborted,
    MultiChannelQueue.setRemoteState Example.nm Example.loaded 1%nat 4 5 7 0 0
      = Ok (q', None, aborted) /\
    (forall m,
       In m aborted <->
       exists i c,
         MultiChannelQueue.channel Example.loaded i = Some c /\
         In m (Channel._msgQ c)) /\
    MultiChannelQueue._remoteGenId q' = 7 /\
    (forall i c',
       MultiChannelQueue.channel q' i = Some c' ->
       Channel._msgQ c' = [] /\
       Channel._localSeqNum c' = 0 /\
       Channel._localSeqNumOnPeer c' = 0) /\
    (forall i,
       is_Some (MultiChannelQueue.channel q' i) <->
       is_Some (MultiChannelQueue.channel Example.loaded i)) /\
    (MultiChannelQueue.wellFormed Example.nm Example.loaded ->
     forall i msg,
       (i < mqtMax Example.nm)%nat ->
       exists q'' status c'',
         MultiChannelQueue.pushBack Example.nm q' i msg = Ok (q'', status) /\
         MultiChannelQueue.channel q'' i = Some c'' /\
         Channel._localSeqNum c'' = 1).
Proof.
  split; [reflexivity|].
  apply (setRemoteState_peer_restart Example.nm Example.loaded 1%nat 4 5 7 0 0).
  reflexivity.
Defined.

Lemma Channel_pushBack_admission_idle_full :
  isOk (Channel.pushBack Example.idle Example.m1) = true /\
  Channel.pushBack Example.full Example.m1 = Err Overflow.
Proof.
  split.
  - destruct (Channel_pushBack_admission Example.idle Example.m1)
      as (Hiff & _).
    apply Hiff. split; reflexivity.
  - destruct (Channel_pushBack_admission Example.full Example.m1)
      as (_ & _ & Hrefused & _).
    apply Hrefused. intros [H _]. vm_compute in H. discriminate H.
Defined.

Lemma Channel_isActive_spec_busy :
  Channel.isActive Example.busy = true /\
  Channel.inFlight Example.busy = 2.
Proof.
  destruct (Channel_isActive_spec Example.busy) as (Hactive & _ & Hflight).
  split.
  - apply Hactive. split; [reflexivity|discriminate].
  - rewrite Hflight; [reflexivity|split; [discriminate|reflexivity]
                     |discriminate|discriminate].
Defined.

Lemma Channel_validateRemoteState_spec_loaded :
  Channel.validateRemoteState Example.busy 4 2 0 = true /\
  MultiChannelQueue.setRemoteState Example.nm Example.loaded 1%nat 4 5 0 3 0
    = Err ProtocolViolation.
Proof.
  split.
  - destruct (Channel_validateRemoteState_spec Example.busy 4 2 0)
      as (Hiff & _).
    apply Hiff. discriminate.
  - destruct (Channel_validateRemoteState_spec Example.busy 4 3 0)
      as (_ & _ & Hfatal).
    apply (Hfatal Example.nm Example.loaded 1%nat); reflexivity.
Defined.

Lemma getNextGenId_source_example :
  getNextGenId false Example.os = inr 100000000005 /\
  getNextGenId true Example.os = inr 1700000000000250000.
Proof.
  destruct (getNextGenId_source Example.os) as (Hmono & _ & Hwall & _).
  split.
  - apply (Hmono (mkTimespec 100 5)); [reflexivity|].
    split; [discriminate|reflexivity].
  - apply (Hwall (mkTimeval 1700000000 250)). reflexivity.
Defined.


Lemma Channel_new_spec_example :
  Channel.isActive
    (Channel.run Example.idle
       [Channel.PopFront; Channel.SetRemoteState 3 0 0;
        Channel.AbortMessages]) = false.
Proof.
  destruct (Channel_new_spec Example.nm 1 1%nat)
    as (_ & _ & _ & _ & _ & _ & _ & Hidle).
  apply Hidle. reflexivity.
Defined.

Lemma Connection_isConnected_spec_connecting :
  MultiChannelQueue.size (Connection._messageQueue Example.connecting) = 2 /\
  Connection.isConnected Example.connecting = false.
Proof.
  split; [reflexivity|].
  destruct (Connection_isConnected_spec Example.connecting)
    as (_ & _ & Hprogress & _).
  apply Hprogress. reflexivity.
Defined.

(** * Properties of [query/TypeSystem.cpp] *)

(** ** C strings and quoting *)

Lemma c_str_no_NUL (s : list ascii) :
  Forall (fun c => c <> TypeSystem.NUL) (TypeSystem.c_str s).
Proof.
  induction s as [|ch cp IH]; simpl; [constructor|].
  destruct (decide (ch = TypeSystem.NUL)); constructor; assumption.
Qed.

Lemma c_str_id (s : list ascii) :
  Forall (fun c => c <> TypeSystem.NUL) s -> TypeSystem.c_str s = s.
Proof.
  induction 1 as [|ch cp Hch _ IH]; simpl; [reflexivity|].
  destruct (decide (ch = TypeSystem.NUL)); [contradiction|].
  rewrite IH. reflexivity.
Qed.

Lemma c_str_idemp (s : list ascii) :
  TypeSystem.c_str (TypeSystem.c_str s) = TypeSystem.c_str s.
Proof. apply c_str_id, c_str_no_NUL. Qed.

Lemma tidStringQuote_c_str (s quoteThese : list ascii) :
  TypeSystem.tidStringQuote (TypeSystem.c_str s) quoteThese =
  TypeSystem.tidStringQuote s quoteThese.
Proof.
  induction s as [|ch cp IH]; simpl; [reflexivity|].
  destruct (decide (ch = TypeSystem.NUL)) as [|Hch]; [reflexivity|].
  simpl. destruct (decide (ch = TypeSystem.NUL)); [contradiction|].
  rewrite IH. reflexivity.
Qed.

Lemma unquote_tidStringQuote (u quoteThese : list ascii) :
  TypeSystem.index quoteThese "\"%char = true ->
  TypeSystem.unquote (TypeSystem.tidStringQuote u quoteThese)
  = TypeSystem.c_str u.
Proof.
  intros Hq. induction u as [|ch cp IH]; simpl; [reflexivity|].
  destruct (decide (ch = TypeSystem.NUL)); [reflexivity|].
  destruct (TypeSystem.index quoteThese ch) eqn:Hch; simpl.
  - rewrite IH. reflexivity.
  - destruct (decide (ch = "\"%char)) as [->|_]; [congruence|].
    rewrite IH. reflexivity.
Qed.

(** X1: with the backslash among the quoted characters, as in the one
    call of the file, undoing the backslashes of [tidStringQuote]'s
    output gives back the C string that was quoted; so two strings with
    the same quoted form are the same C string. *)
Theorem tidStringQuote_unquote (s t quoteThese : list ascii) :
  TypeSystem.index quoteThese "\"%char = true ->
  TypeSystem.unquote (TypeSystem.tidStringQuote s quoteThese)
    = TypeSystem.c_str s /\
  (TypeSystem.tidStringQuote s quoteThese
     = TypeSystem.tidStringQuote t quoteThese ->
   TypeSystem.c_str s = TypeSystem.c_str t).
Proof.
  intros Hq.
  pose proof (fun u => unquote_tidStringQuote u quoteThese Hq) as Hun.
  split; [apply Hun|].
  intros Heq. rewrite <- (Hun s), <- (Hun t), Heq. reflexivity.
Qed.


Lemma tidStringQuote_after_backslash (s quoteThese : list ascii) (i : nat)
    (c : ascii) :
  TypeSystem.tidStringQuote s quoteThese !! i = Some c ->
  c <> "\"%char ->
  TypeSystem.index quoteThese c = true ->
  exists j, i = S j /\
    TypeSystem.tidStringQuote s quoteThese !! j = Some "\"%char.
Proof.
  revert i. induction s as [|ch cp IH]; intros i Hi Hc Hq; simpl in *;
    [discriminate|].
  destruct (decide (ch = TypeSystem.NUL)); [discriminate|].
  destruct (TypeSystem.index quoteThese ch) eqn:Hch; simpl in *.
  - destruct i as [|[|i]]; simpl in *.
    + congruence.
    + exists 0%nat. split; reflexivity.
    + destruct (IH i Hi Hc Hq) as (j & -> & Hj).
      exists (S (S j)). split; [reflexivity|exact Hj].
  - destruct i as [|i]; simpl in *.
    + congruence.
    + destruct (IH i Hi Hc Hq) as (j & -> & Hj).
      exists (S j). split; [reflexivity|exact Hj].
Qed.

(** X3: in the output of [tidStringQuote], every quoted character other
    than the backslash itself stands right after a backslash. *)
Theorem tidStringQuote_escaped (s quoteThese : list ascii) (i : nat)
    (c : ascii) :
  TypeSystem.tidStringQuote s quoteThese !! i = Some c ->
  c <> "\"%char ->
  TypeSystem.index quoteThese c = true ->
  exists j, i = S j /\
    TypeSystem.tidStringQuote s quoteThese !! j = Some "\"%char.
Proof.
  revert i. induction s as [|ch cp IH]; intros i Hi Hc Hq; simpl in *;
    [discriminate|].
  destruct (decide (ch = TypeSystem.NUL)); [discriminate|].
  destruct (TypeSystem.index quoteThese ch) eqn:Hch; simpl in *.
  - destruct i as [|[|i]]; simpl in *.
    + congruence.
    + exists 0%nat. split; reflexivity.
    + destruct (IH i Hi Hc Hq) as (j & -> & Hj).
      exists (S (S j)). split; [reflexivity|exact Hj].
  - destruct i as [|i]; simpl in *.
    + congruence.
    + destruct (IH i Hi Hc Hq) as (j & -> & Hj).
      exists (S j). split; [reflexivity|exact Hj].
Qed.

(** ** Month names *)






(** ** Leading zeroes *)

Lemma isdigit_facts (c : ascii) :
  TypeSystem.isdigit c = true ->
  c <> TypeSystem.NUL /\ TypeSystem.tolower c <> "x"%char /\
  0 <= TypeSystem.digitValue c <= 9.
Proof.
  destruct c as [[] [] [] [] [] [] [] []]; vm_compute;
    intros H; try discriminate H; repeat split; discriminate.
Qed.

Lemma skipZeroes_value (ds : list ascii) :
  TypeSystem.decimalValue (TypeSystem.skipZeroes ds)
    = TypeSystem.decimalValue ds.
Proof.
  induction ds as [|c ds IH]; simpl; [reflexivity|].
  destruct (decide (c = "0"%char)) as [->|]; [|reflexivity].
  rewrite IH. reflexivity.
Qed.

Lemma skipZeroes_Forall (P : ascii -> Prop) (ds : list ascii) :
  Forall P ds -> Forall P (TypeSystem.skipZeroes ds).
Proof.
  induction 1 as [|c ds Hc Hds IH]; simpl; [constructor|].
  destruct (decide (c = "0"%char)); [exact IH|constructor; assumption].
Qed.

Lemma skipZeroes_head (ds : list ascii) :
  hd TypeSystem.NUL (TypeSystem.skipZeroes ds) <> "0"%char.
Proof.
  induction ds as [|c ds IH]; simpl; [discriminate|].
  destruct (decide (c = "0"%char)); [exact IH|assumption].
Qed.

Lemma skipZeroes_id (ds : list ascii) :
  hd TypeSystem.NUL ds <> "0"%char -> TypeSystem.skipZeroes ds = ds.
Proof.
  destruct ds as [|c ds]; simpl; [reflexivity|].
  intros H. destruct (decide (c = "0"%char)); [contradiction|reflexivity].
Qed.

Lemma skipZeroes_length (ds : list ascii) :
  (length (TypeSystem.skipZeroes ds) <= length ds)%nat.
Proof.
  induction ds as [|c ds IH]; simpl; [lia|].
  destruct (decide (c = "0"%char)); simpl; lia.
Qed.

Lemma stripLeadingZeroes_canonical (digits : list ascii) :
  digits <> [] ->
  Forall (fun c => TypeSystem.isdigit c = true) digits ->
  let stripped := TypeSystem.stripLeadingZeroes digits in
  TypeSystem.decimalValue stripped = TypeSystem.decimalValue digits /\
  Forall (fun c => TypeSystem.isdigit c = true) stripped /\
  stripped <> [] /\
  (hd TypeSystem.NUL stripped = "0"%char -> stripped = ["0"%char]) /\
  (length stripped <= length digits)%nat.
Proof.
  intros Hne Hdigits. simpl. unfold TypeSystem.stripLeadingZeroes.
  rewrite c_str_id
    by (eapply Forall_impl; [|exact Hdigits]; intros c Hc;
        apply (isdigit_facts c Hc)).
  destruct digits as [|ch cp1]; [contradiction|].
  destruct (bool_decide (ch = "0"%char)) eqn:Hch; simpl.
  - apply bool_decide_eq_true in Hch. subst ch.
    assert (TypeSystem.tolower (hd TypeSystem.NUL cp1) <> "x"%char) as Hx.
    { inversion Hdigits as [|? ? _ Hcp1]; subst.
      destruct cp1 as [|d cp1]; simpl; [discriminate|].
      inversion Hcp1; subst. apply isdigit_facts. assumption. }
    rewrite bool_decide_false by exact Hx. simpl.
    pose proof (skipZeroes_value cp1) as Hval.
    pose proof (skipZeroes_head cp1) as Hhead.
    pose proof (skipZeroes_length cp1) as Hlength.
    assert (Forall (fun c => TypeSystem.isdigit c = true)
              (TypeSystem.skipZeroes cp1)) as Hrest.
    { apply skipZeroes_Forall. inversion Hdigits; assumption. }
    assert (TypeSystem.decimalValue ("0"%char :: cp1)
            = TypeSystem.decimalValue cp1) as -> by reflexivity.
    destruct (TypeSystem.skipZeroes cp1) as [|d cp] eqn:Hskip; simpl.
    + repeat split; try (rewrite <- Hval; reflexivity); try discriminate;
        [repeat constructor|lia].
    + inversion Hrest as [|? ? Hd _]; subst. rewrite Hd.
      repeat split; try assumption; try discriminate;
        [intros Hzero; contradiction|simpl in *; lia].
  - apply bool_decide_eq_false in Hch.
    repeat split; try assumption; try discriminate; [|lia].
    simpl. intros Hzero. contradiction.
Qed.

(** X5: on a non-empty string of decimal digits [stripLeadingZeroes]
    returns a non-empty string of digits with the same decimal value
    and no leading zero, except that the value 0 is the single digit
    0. *)
Theorem stripLeadingZeroes_digits (digits : list ascii) :
  digits <> [] ->
  Forall (fun c => TypeSystem.isdigit c = true) digits ->
  let stripped := TypeSystem.stripLeadingZeroes digits in
  TypeSystem.decimalValue stripped = TypeSystem.decimalValue digits /\
  Forall (fun c => TypeSystem.isdigit c = true) stripped /\
  stripped <> [] /\
  (hd TypeSystem.NUL stripped = "0"%char -> stripped = ["0"%char]).
Proof.
  intros Hne Hdigits.
  destruct (stripLeadingZeroes_canonical digits Hne Hdigits)
    as (Hval & Hall & Hstripped & Hzero & _).
  repeat split; assumption.
Qed.

Lemma stripLeadingZeroes_cases (str : list ascii) :
  TypeSystem.stripLeadingZeroes str = str \/
  exists cp,
    Forall (fun c => c <> TypeSystem.NUL) cp /\
    hd TypeSystem.NUL cp <> "0"%char /\
    TypeSystem.stripLeadingZeroes str =
      if TypeSystem.isdigit (hd TypeSystem.NUL cp) then cp
      else "0"%char :: cp.
Proof.
  unfold TypeSystem.stripLeadingZeroes.
  pose proof (c_str_no_NUL str) as Hnul.
  destruct (TypeSystem.c_str str) as [|ch cp1]; [left; reflexivity|].
  destruct (_ && _); [|left; reflexivity].
  right. exists (TypeSystem.skipZeroes (ch :: cp1)).
  split; [apply skipZeroes_Forall; exact Hnul|].
  split; [apply skipZeroes_head|reflexivity].
Qed.

(** X6: [stripLeadingZeroes] is idempotent: applied to its own result
    it changes nothing, whatever the string. *)
Theorem stripLeadingZeroes_idempotent (str : list ascii) :
  TypeSystem.stripLeadingZeroes (TypeSystem.stripLeadingZeroes str)
    = TypeSystem.stripLeadingZeroes str.
Proof.
  destruct (stripLeadingZeroes_cases str) as [H|(cp & Hcp & Hhead & ->)];
    [rewrite H; exact H|].
  destruct (TypeSystem.isdigit (hd TypeSystem.NUL cp)) eqn:Hdigit;
    unfold TypeSystem.stripLeadingZeroes.
  - rewrite (c_str_id cp Hcp).
    destruct cp as [|d cp']; [reflexivity|]. simpl in Hhead.
    rewrite (bool_decide_false (d = "0"%char)) by exact Hhead. reflexivity.
  - rewrite (c_str_id ("0"%char :: cp))
      by (constructor; [discriminate|exact Hcp]).
    rewrite (bool_decide_true ("0"%char = "0"%char)) by reflexivity.
    destruct (negb _); simpl; [|reflexivity].
    rewrite (skipZeroes_id cp Hhead), Hdigit. reflexivity.
Qed.

(** ** Built-in types *)

Ltac solve_disjunct := repeat first [reflexivity | left; reflexivity | right].

(** X7: [isBuiltinType] accepts exactly the names listed in
    [builtinTypeInfo], whatever [sizeof(time_t)] is. *)
Theorem isBuiltinType_table (tid : TypeSystem.TypeIds) (sizeof_time_t : Z)
    (type : list ascii) :
  TypeSystem.isBuiltinType tid type = true <->
  type ∈ (fst <$> TypeSystem.builtinTypeInfo tid sizeof_time_t).
Proof.
  unfold TypeSystem.isBuiltinType, TypeSystem.sameId.
  rewrite !orb_true_iff, !bool_decide_eq_true. simpl.
  rewrite !elem_of_cons, elem_of_nil.
  split; intros H;
    repeat (destruct H as [H|H]); try contradiction; subst;
    first [solve [solve_disjunct]
          |solve [repeat first [reflexivity | right; reflexivity | left]]].
Qed.

(** X8: for every C type [T] with a [type2TypeId] specialisation, the
    name [type2TypeId<T>()] is a built-in type whose entry in
    [builtinTypeInfo] has [8 * sizeof(T)] bits. *)
Theorem type2TypeId_bits (tid : TypeSystem.TypeIds) (sizeof_time_t : Z)
    (T : TypeSystem.CType) :
  (TypeSystem.type2TypeId tid T, 8 * TypeSystem.sizeof T)
    ∈ TypeSystem.builtinTypeInfo tid sizeof_time_t /\
  TypeSystem.isBuiltinType tid (TypeSystem.type2TypeId tid T) = true.
Proof.
  split.
  - unfold TypeSystem.builtinTypeInfo.
    destruct T; simpl; rewrite !elem_of_cons; solve_disjunct.
  - apply (isBuiltinType_table tid sizeof_time_t).
    destruct T; simpl; rewrite !elem_of_cons; solve_disjunct.
Qed.

Lemma propagateTypeToReal_cases (tid : TypeSystem.TypeIds)
    (type : list ascii) :
  TypeSystem.propagateTypeToReal tid type = TypeSystem.TID_DOUBLE tid \/
  TypeSystem.propagateTypeToReal tid type = type.
Proof.
  unfold TypeSystem.propagateTypeToReal.
  destruct (_ || _); [left|right]; reflexivity.
Qed.

Lemma propagateTypeToReal_DOUBLE (tid : TypeSystem.TypeIds) :
  TypeSystem.propagateTypeToReal tid (TypeSystem.TID_DOUBLE tid)
    = TypeSystem.TID_DOUBLE tid.
Proof.
  unfold TypeSystem.propagateTypeToReal. destruct (_ || _); reflexivity.
Qed.

Lemma sameId_refl (name : list ascii) : TypeSystem.sameId name name = true.
Proof. apply bool_decide_eq_true. reflexivity. Qed.

Ltac simpl_orb :=
  rewrite ?sameId_refl;
  rewrite ?orb_true_r, ?orb_true_l, ?orb_false_r, ?orb_false_l; simpl.

(** X9: [propagateTypeToReal] is idempotent and absorbs
    [propagateType]: widening to a real after widening within the
    integers or floats gives what widening to a real gives directly.
    Both functions map built-in types to built-in types. *)
Theorem propagateTypeToReal_absorbs (tid : TypeSystem.TypeIds)
    (type : list ascii) :
  TypeSystem.propagateTypeToReal tid
    (TypeSystem.propagateTypeToReal tid type)
    = TypeSystem.propagateTypeToReal tid type /\
  TypeSystem.propagateTypeToReal tid (TypeSystem.propagateType tid type)
    = TypeSystem.propagateTypeToReal tid type /\
  (TypeSystem.isBuiltinType tid type = true ->
   TypeSystem.isBuiltinType tid (TypeSystem.propagateType tid type) = true /\
   TypeSystem.isBuiltinType tid (TypeSystem.propagateTypeToReal tid type)
     = true).
Proof.
  split; [|split].
  - destruct (propagateTypeToReal_cases tid type) as [H|H]; rewrite H.
    + apply propagateTypeToReal_DOUBLE.
    + exact H.
  - unfold TypeSystem.propagateType.
    destruct (TypeSystem.sameId (TypeSystem.TID_INT8 tid) type) eqn:E1;
    destruct (TypeSystem.sameId (TypeSystem.TID_INT16 tid) type) eqn:E2;
    destruct (TypeSystem.sameId (TypeSystem.TID_INT32 tid) type) eqn:E3;
      simpl;
      try (unfold TypeSystem.propagateTypeToReal; rewrite ?E1, ?E2, ?E3;
           simpl_orb; reflexivity).
    destruct (TypeSystem.sameId (TypeSystem.TID_UINT8 tid) type) eqn:E5;
    destruct (TypeSystem.sameId (TypeSystem.TID_UINT16 tid) type) eqn:E6;
    destruct (TypeSystem.sameId (TypeSystem.TID_UINT32 tid) type) eqn:E7;
      simpl;
      try (unfold TypeSystem.propagateTypeToReal;
           rewrite ?E1, ?E2, ?E3, ?E5, ?E6, ?E7; simpl_orb; reflexivity).
    destruct (TypeSystem.sameId (TypeSystem.TID_FLOAT tid) type) eqn:E9;
      [|reflexivity].
    rewrite propagateTypeToReal_DOUBLE.
    unfold TypeSystem.propagateTypeToReal. rewrite E9. simpl_orb. reflexivity.
  - intros Hb. split.
    + unfold TypeSystem.propagateType.
      repeat (destruct (_ || _); [apply (isBuiltinType_table tid 0); simpl;
                                  rewrite !elem_of_cons; solve_disjunct|]).
      destruct (TypeSystem.sameId _ _); [|exact Hb].
      apply (isBuiltinType_table tid 0); simpl;
        rewrite !elem_of_cons; solve_disjunct.
    + destruct (propagateTypeToReal_cases tid type) as [H|H]; rewrite H;
        [|exact Hb].
      apply (isBuiltinType_table tid 0); simpl;
        rewrite !elem_of_cons; solve_disjunct.
Qed.

Lemma numericIds_distinct (tid : TypeSystem.TypeIds) (i j : nat)
    (a b : list ascii) :
  NoDup (TypeSystem.numericIds tid) ->
  TypeSystem.numericIds tid !! i = Some a ->
  TypeSystem.numericIds tid !! j = Some b ->
  i <> j -> a <> b.
Proof.
  intros Hnd Hi Hj Hij Hab. subst b. apply Hij.
  exact (NoDup_lookup _ _ _ _ Hnd Hi Hj).
Qed.

Ltac numeric_neq H i j :=
  apply bool_decide_eq_false;
  apply (numericIds_distinct _ i j _ _ H); [reflexivity|reflexivity|lia].

(** X10: when the names of the ten numeric types are pairwise distinct,
    [propagateType] is idempotent, and its result is never one of the
    narrow types int8, int16, int32, uint8, uint16, uint32 or float. *)
Theorem propagateType_idempotent (tid : TypeSystem.TypeIds)
    (type : list ascii) :
  NoDup (TypeSystem.numericIds tid) ->
  TypeSystem.propagateType tid (TypeSystem.propagateType tid type)
    = TypeSystem.propagateType tid type /\
  TypeSystem.propagateType tid type
    ∉ [TypeSystem.TID_INT8 tid; TypeSystem.TID_INT16 tid;
       TypeSystem.TID_INT32 tid; TypeSystem.TID_UINT8 tid;
       TypeSystem.TID_UINT16 tid; TypeSystem.TID_UINT32 tid;
       TypeSystem.TID_FLOAT tid].
Proof.
  intros Hnd.
  assert (forall y,
            TypeSystem.sameId (TypeSystem.TID_INT8 tid) y = false ->
            TypeSystem.sameId (TypeSystem.TID_INT16 tid) y = false ->
            TypeSystem.sameId (TypeSystem.TID_INT32 tid) y = false ->
            TypeSystem.sameId (TypeSystem.TID_UINT8 tid) y = false ->
            TypeSystem.sameId (TypeSystem.TID_UINT16 tid) y = false ->
            TypeSystem.sameId (TypeSystem.TID_UINT32 tid) y = false ->
            TypeSystem.sameId (TypeSystem.TID_FLOAT tid) y = false ->
            TypeSystem.propagateType tid y = y /\
            y ∉ [TypeSystem.TID_INT8 tid; TypeSystem.TID_INT16 tid;
                 TypeSystem.TID_INT32 tid; TypeSystem.TID_UINT8 tid;
                 TypeSystem.TID_UINT16 tid; TypeSystem.TID_UINT32 tid;
                 TypeSystem.TID_FLOAT tid]) as Hfixed.
  { intros y H1 H2 H3 H5 H6 H7 H9. split.
    - unfold TypeSystem.propagateType.
      rewrite H1, H2, H3, H5, H6, H7, H9. reflexivity.
    - unfold TypeSystem.sameId in *.
      apply bool_decide_eq_false in H1, H2, H3, H5, H6, H7, H9.
      rewrite !elem_of_cons, elem_of_nil. intros H.
      repeat (destruct H as [H|H]); try contradiction; subst; congruence. }
  assert (TypeSystem.propagateType tid type = TypeSystem.TID_INT64 tid \/
          TypeSystem.propagateType tid type = TypeSystem.TID_UINT64 tid \/
          TypeSystem.propagateType tid type = TypeSystem.TID_DOUBLE tid \/
          (TypeSystem.propagateType tid type = type /\
           TypeSystem.sameId (TypeSystem.TID_INT8 tid) type = false /\
           TypeSystem.sameId (TypeSystem.TID_INT16 tid) type = false /\
           TypeSystem.sameId (TypeSystem.TID_INT32 tid) type = false /\
           TypeSystem.sameId (TypeSystem.TID_UINT8 tid) type = false /\
           TypeSystem.sameId (TypeSystem.TID_UINT16 tid) type = false /\
           TypeSystem.sameId (TypeSystem.TID_UINT32 tid) type = false /\
           TypeSystem.sameId (TypeSystem.TID_FLOAT tid) type = false))
    as Hrange.
  { unfold TypeSystem.propagateType.
    destruct (TypeSystem.sameId (TypeSystem.TID_INT8 tid) type);
    destruct (TypeSystem.sameId (TypeSystem.TID_INT16 tid) type);
    destruct (TypeSystem.sameId (TypeSystem.TID_INT32 tid) type);
      simpl; auto.
    destruct (TypeSystem.sameId (TypeSystem.TID_UINT8 tid) type);
    destruct (TypeSystem.sameId (TypeSystem.TID_UINT16 tid) type);
    destruct (TypeSystem.sameId (TypeSystem.TID_UINT32 tid) type);
      simpl; auto.
    destruct (TypeSystem.sameId (TypeSystem.TID_FLOAT tid) type);
      simpl; auto 12. }
  destruct Hrange as [->|[->|[->|(-> & H1 & H2 & H3 & H5 & H6 & H7 & H9)]]].
  - apply Hfixed; unfold TypeSystem.sameId;
      [numeric_neq Hnd 0%nat 3%nat | numeric_neq Hnd 1%nat 3%nat
      |numeric_neq Hnd 2%nat 3%nat | numeric_neq Hnd 4%nat 3%nat
      |numeric_neq Hnd 5%nat 3%nat | numeric_neq Hnd 6%nat 3%nat
      |numeric_neq Hnd 8%nat 3%nat].
  - apply Hfixed; unfold TypeSystem.sameId;
      [numeric_neq Hnd 0%nat 7%nat | numeric_neq Hnd 1%nat 7%nat
      |numeric_neq Hnd 2%nat 7%nat | numeric_neq Hnd 4%nat 7%nat
      |numeric_neq Hnd 5%nat 7%nat | numeric_neq Hnd 6%nat 7%nat
      |numeric_neq Hnd 8%nat 7%nat].
  - apply Hfixed; unfold TypeSystem.sameId;
      [numeric_neq Hnd 0%nat 9%nat | numeric_neq Hnd 1%nat 9%nat
      |numeric_neq Hnd 2%nat 9%nat | numeric_neq Hnd 4%nat 9%nat
      |numeric_neq Hnd 5%nat 9%nat | numeric_neq Hnd 6%nat 9%nat
      |numeric_neq Hnd 8%nat 9%nat].
  - apply Hfixed; assumption.
Qed.

(** ** The type library *)

Lemma countListed_filter (m : TypeSystem.Map TypeSystem.Type_) (count : Z) :
  TypeSystem.countListed m count =
  count + Z.of_nat (length (filter (fun e => TypeSystem.listed e = true) m)).
Proof.
  revert count. induction m as [|entry rest IH]; intros count;
    [simpl; lia|].
  cbn [TypeSystem.countListed]. rewrite IH, filter_cons.
  destruct (TypeSystem.listed entry).
  - rewrite decide_True by reflexivity. cbn [length]. lia.
  - rewrite decide_False by discriminate. lia.
Qed.

Lemma pushListed_filter (m : TypeSystem.Map TypeSystem.Type_)
    (ids : list (list ascii)) :
  TypeSystem.pushListed m ids =
  ids ++ (fst <$> filter (fun e => TypeSystem.listed e = true) m).
Proof.
  revert ids. induction m as [|entry rest IH]; intros ids.
  - simpl. rewrite app_nil_r. reflexivity.
  - cbn [TypeSystem.pushListed]. rewrite IH, filter_cons.
    destruct (TypeSystem.listed entry).
    + rewrite decide_True by reflexivity. rewrite fmap_cons, <- app_assoc.
      reflexivity.
    + rewrite decide_False by discriminate. reflexivity.
Qed.

(** X11: [_typesCount] is the length of [_typeIds]: both skip exactly
    the registered names that begin with a dollar sign, and [_typeIds]
    lists the others in the order of the map. *)
Theorem typesCount_typeIds (lib : TypeSystem.TypeLibrary) :
  TypeSystem._typesCount lib
    = Z.of_nat (length (TypeSystem._typeIds lib)) /\
  TypeSystem._typeIds lib =
    fst <$> filter (fun e => hd TypeSystem.NUL (fst e) <> "$"%char)
              (TypeSystem._typesById lib).
Proof.
  unfold TypeSystem._typesCount, TypeSystem._typeIds.
  rewrite countListed_filter, pushListed_filter. simpl.
  split; [rewrite length_fmap; reflexivity|].
  f_equal. apply list_filter_iff. intros e. unfold TypeSystem.listed.
  rewrite negb_true_iff, bool_decide_eq_false. reflexivity.
Qed.

Lemma sameKey_refl (less : list ascii -> list ascii -> bool) (k : list ascii) :
  (forall a, less a a = false) -> TypeSystem.sameKey less k k = true.
Proof. intros H. unfold TypeSystem.sameKey. rewrite H. reflexivity. Qed.

Lemma sameKey_sym (less : list ascii -> list ascii -> bool)
    (a b : list ascii) :
  TypeSystem.sameKey less a b = TypeSystem.sameKey less b a.
Proof. unfold TypeSystem.sameKey. apply andb_comm. Qed.

Lemma find_assign {V : Type} (less : list ascii -> list ascii -> bool)
    (k : list ascii) (v : V) (m : TypeSystem.Map V) :
  (forall a, less a a = false) ->
  exists k', TypeSystem.find less k (TypeSystem.assign less k v m)
             = Some (k', v).
Proof.
  intros Hirr. induction m as [|[k0 v0] rest IH]; simpl.
  - rewrite (sameKey_refl less k Hirr). eauto.
  - destruct (less k k0) eqn:H1; simpl.
    + rewrite (sameKey_refl less k Hirr). eauto.
    + destruct (less k0 k) eqn:H2; simpl.
      * unfold TypeSystem.sameKey at 1. rewrite H2. simpl. exact IH.
      * unfold TypeSystem.sameKey. rewrite H1, H2. simpl. eauto.
Qed.

Lemma find_assign_fresh {V : Type} (less : list ascii -> list ascii -> bool)
    (k : list ascii) (v : V) (m : TypeSystem.Map V) :
  (forall a, less a a = false) ->
  TypeSystem.find less k m = None ->
  TypeSystem.find less k (TypeSystem.assign less k v m) = Some (k, v).
Proof.
  intros Hirr. induction m as [|[k0 v0] rest IH]; simpl.
  - rewrite (sameKey_refl less k Hirr). reflexivity.
  - destruct (TypeSystem.sameKey less k0 k) eqn:Hsame; [discriminate|].
    intros Hnone. destruct (less k k0) eqn:H1; simpl.
    + rewrite (sameKey_refl less k Hirr). reflexivity.
    + destruct (less k0 k) eqn:H2; simpl.
      * rewrite Hsame. apply IH, Hnone.
      * unfold TypeSystem.sameKey in Hsame. rewrite H1, H2 in Hsame.
        discriminate.
Qed.

Lemma find_assign_other {V : Type} (less : list ascii -> list ascii -> bool)
    (k j : list ascii) (v : V) (m : TypeSystem.Map V) :
  TypeSystem.find less k m = None ->
  TypeSystem.sameKey less k j = false ->
  TypeSystem.find less j (TypeSystem.assign less k v m)
    = TypeSystem.find less j m.
Proof.
  intros Hnone Hkj. induction m as [|[k0 v0] rest IH]; simpl in *.
  - rewrite Hkj. reflexivity.
  - destruct (TypeSystem.sameKey less k0 k) eqn:Hsame; [discriminate|].
    destruct (less k k0) eqn:H1; simpl.
    + rewrite Hkj. reflexivity.
    + destruct (less k0 k) eqn:H2; simpl.
      * destruct (TypeSystem.sameKey less k0 j); [reflexivity|].
        apply IH, Hnone.
      * unfold TypeSystem.sameKey in Hsame. rewrite H1, H2 in Hsame.
        discriminate.
Qed.

Lemma find_None_keys {V : Type} (less : list ascii -> list ascii -> bool)
    (k : list ascii) (m : TypeSystem.Map V) :
  TypeSystem.find less k m = None <->
  Forall (fun key => TypeSystem.sameKey less key k = false) (fst <$> m).
Proof.
  induction m as [|[k0 v0] rest IH]; simpl.
  - split; [constructor|reflexivity].
  - destruct (TypeSystem.sameKey less k0 k) eqn:Hsame.
    + split; [discriminate|]. intros H. inversion H; subst. congruence.
    + rewrite IH. split; [constructor; assumption|].
      intros H. inversion H; subst. assumption.
Qed.

Lemma assign_keys {V : Type} (less : list ascii -> list ascii -> bool)
    (P : list ascii -> Prop) (k : list ascii) (v : V) (m : TypeSystem.Map V) :
  P k -> Forall P (fst <$> m) ->
  Forall P (fst <$> TypeSystem.assign less k v m).
Proof.
  intros Hk. induction m as [|[k0 v0] rest IH]; simpl; intros Hm.
  - repeat constructor. exact Hk.
  - inversion Hm as [|? ? Hk0 Hrest]; subst.
    destruct (less k k0); simpl; [repeat constructor; assumption|].
    destruct (less k0 k); simpl; constructor; auto.
Qed.

(** X12: with an irreflexive comparator, a type whose registration
    succeeds is in the library afterwards: [_hasType] is true for its
    name, and unless a built-in entry shadows the name, [_getType]
    returns a type of the same bit size and base type and leaves the
    library as it is. *)
Theorem registerType_lookup (less : list ascii -> list ascii -> bool)
    (atoi : list ascii -> Z) (lib lib' : TypeSystem.TypeLibrary)
    (type : TypeSystem.Type_) :
  (forall a, less a a = false) ->
  TypeSystem._registerType less lib type = inr lib' ->
  TypeSystem._hasType less lib' (TypeSystem.typeId type) = true /\
  (TypeSystem.find less (TypeSystem.typeId type)
     (TypeSystem._builtinTypesById lib) = None ->
   exists registered,
     TypeSystem._getType less atoi lib' (TypeSystem.typeId type)
       = inr (lib', registered) /\
     TypeSystem.bitSize registered = TypeSystem.bitSize type /\
     TypeSystem.baseType registered = TypeSystem.baseType type).
Proof.
  intros Hirr. unfold TypeSystem._registerType.
  destruct (TypeSystem.find less (TypeSystem.typeId type)
              (TypeSystem._typesById lib)) as [[k registered]|] eqn:Hfind.
  - destruct (negb (bool_decide _) || negb (bool_decide _)) eqn:Hdiff;
      [discriminate|].
    intros H. injection H as <-.
    apply orb_false_iff in Hdiff as [Hbits Hbase].
    apply negb_false_iff, bool_decide_eq_true in Hbits, Hbase.
    split.
    + unfold TypeSystem._hasType. rewrite Hfind. simpl.
      destruct (TypeSystem.found _); reflexivity.
    + intros Hbuiltin. exists registered.
      unfold TypeSystem._getType. rewrite Hbuiltin, Hfind. auto.
  - intros H. injection H as <-.
    pose proof (find_assign_fresh less (TypeSystem.typeId type) type
                  (TypeSystem._typesById lib) Hirr Hfind) as Hnew.
    split.
    + unfold TypeSystem._hasType. simpl. rewrite Hnew. simpl.
      destruct (TypeSystem.found _); reflexivity.
    + intros Hbuiltin. exists type.
      unfold TypeSystem._getType. simpl. rewrite Hbuiltin, Hnew. auto.
Qed.

(** X13: with an irreflexive comparator, registering a type a second
    time changes nothing, and registering under the same name a type of
    another bit size or base type is refused with
    [TYPE_ALREADY_REGISTERED]. *)
Theorem registerType_again (less : list ascii -> list ascii -> bool)
    (lib lib' : TypeSystem.TypeLibrary) (type : TypeSystem.Type_) :
  (forall a, less a a = false) ->
  TypeSystem._registerType less lib type = inr lib' ->
  TypeSystem._registerType less lib' type = inr lib' /\
  (forall other,
     TypeSystem.typeId other = TypeSystem.typeId type ->
     TypeSystem.bitSize other <> TypeSystem.bitSize type \/
     TypeSystem.baseType other <> TypeSystem.baseType type ->
     TypeSystem._registerType less lib' other
       = inl (TypeSystem.TYPE_ALREADY_REGISTERED (TypeSystem.typeId other))).
Proof.
  intros Hirr Hreg.
  assert (exists k registered,
            TypeSystem.find less (TypeSystem.typeId type)
              (TypeSystem._typesById lib') = Some (k, registered) /\
            TypeSystem.bitSize registered = TypeSystem.bitSize type /\
            TypeSystem.baseType registered = TypeSystem.baseType type)
    as (k & registered & Hfind & Hbits & Hbase).
  { revert Hreg. unfold TypeSystem._registerType.
    destruct (TypeSystem.find less (TypeSystem.typeId type)
                (TypeSystem._typesById lib)) as [[k registered]|] eqn:Hfind.
    - destruct (negb (bool_decide _) || negb (bool_decide _)) eqn:Hdiff;
        [discriminate|].
      intros H. injection H as <-.
      apply orb_false_iff in Hdiff as [Hbits Hbase].
      apply negb_false_iff, bool_decide_eq_true in Hbits, Hbase.
      eauto.
    - intros H. injection H as <-. simpl.
      rewrite (find_assign_fresh less _ type _ Hirr Hfind). eauto. }
  split.
  - unfold TypeSystem._registerType. rewrite Hfind.
    rewrite !bool_decide_true by assumption. reflexivity.
  - intros other Hid Hother. unfold TypeSystem._registerType.
    rewrite Hid, Hfind.
    destruct Hother as [Hother|Hother].
    + rewrite (bool_decide_false (TypeSystem.bitSize registered = _))
        by congruence.
      reflexivity.
    + rewrite (bool_decide_false (TypeSystem.baseType registered = _))
        by congruence.
      rewrite orb_true_r. reflexivity.
Qed.

(** X14: with an irreflexive comparator, a successful [_getType] makes
    the name known: afterwards [_hasType] is true and a second
    [_getType] returns the same type without changing the library.  If
    [_hasType] was true before, the first lookup changes nothing
    either. *)
Theorem getType_stable (less : list ascii -> list ascii -> bool)
    (atoi : list ascii -> Z) (lib lib' : TypeSystem.TypeLibrary)
    (typeId : list ascii) (type : TypeSystem.Type_) :
  (forall a, less a a = false) ->
  TypeSystem._getType less atoi lib typeId = inr (lib', type) ->
  TypeSystem._hasType less lib' typeId = true /\
  TypeSystem._getType less atoi lib' typeId = inr (lib', type) /\
  (TypeSystem._hasType less lib typeId = true -> lib' = lib).
Proof.
  intros Hirr. unfold TypeSystem._getType, TypeSystem._hasType.
  destruct (TypeSystem.find less typeId (TypeSystem._builtinTypesById lib))
    as [[k0 t0]|] eqn:Hbuiltin.
  { intros H. injection H as <- <-. rewrite Hbuiltin. auto. }
  destruct (TypeSystem.find less typeId (TypeSystem._typesById lib))
    as [[k1 t1]|] eqn:Htypes.
  { intros H. injection H as <- <-. rewrite Hbuiltin, Htypes. auto. }
  destruct (TypeSystem.find_first_of typeId "_"%char) as [pos|];
    [|discriminate].
  destruct (TypeSystem.find less (take (pos + 1) typeId ++ ["*"%char])
              (TypeSystem._typesById lib))
    as [[k2 generic]|]; [|discriminate].
  intros H. injection H as <- <-. simpl.
  rewrite Hbuiltin. simpl.
  rewrite (find_assign_fresh less typeId _ _ Hirr Htypes). simpl.
  split; [reflexivity|]. split; [reflexivity|discriminate].
Qed.

Lemma differentKeys_cons (less : list ascii -> list ascii -> bool)
    (name : list ascii) (rest : list (list ascii)) :
  TypeSystem.differentKeys less (name :: rest) = true ->
  Forall (fun other => TypeSystem.sameKey less name other = false) rest /\
  TypeSystem.differentKeys less rest = true.
Proof.
  simpl. rewrite andb_true_iff, forallb_forall. intros [Hname Hrest].
  split; [|exact Hrest]. apply Forall_forall. intros other Hother.
  apply negb_true_iff, Hname, Hother.
Qed.

Lemma registerAll_spec (less : list ascii -> list ascii -> bool)
    (base : list ascii) (newValue : TypeSystem.Type_ -> TypeSystem.Value)
    (table : list (list ascii * Z)) (lib : TypeSystem.TypeLibrary) :
  (forall a, less a a = false) ->
  TypeSystem.differentKeys less (fst <$> table) = true ->
  Forall (fun name =>
            TypeSystem.find less name (TypeSystem._typesById lib) = None /\
            TypeSystem.find less name (TypeSystem._builtinTypesById lib) = None)
    (fst <$> table) ->
  exists lib',
    TypeSystem.registerAll less base newValue table lib = inr lib' /\
    TypeSystem._typeLibraries lib'
      = TypeSystem._typeLibraries lib ++ (fst <$> table) /\
    (forall name bits, (name, bits) ∈ table ->
       TypeSystem.find less name (TypeSystem._typesById lib')
         = Some (name, TypeSystem.mkType name bits base) /\
       TypeSystem.find less name (TypeSystem._builtinTypesById lib')
         = Some (name, TypeSystem.mkType name bits base)) /\
    (forall j,
       Forall (fun name => TypeSystem.sameKey less name j = false)
         (fst <$> table) ->
       TypeSystem.find less j (TypeSystem._typesById lib')
         = TypeSystem.find less j (TypeSystem._typesById lib) /\
       TypeSystem.find less j (TypeSystem._builtinTypesById lib')
         = TypeSystem.find less j (TypeSystem._builtinTypesById lib)).
Proof.
  intros Hirr. revert lib.
  induction table as [|[name bits] rest IH]; intros lib Hdiff Hfresh.
  - exists lib. simpl. rewrite app_nil_r.
    split; [reflexivity|]. split; [reflexivity|].
    split; [intros name bits H; inversion H|auto].
  - rewrite fmap_cons in Hdiff, Hfresh. simpl in Hdiff, Hfresh.
    apply differentKeys_cons in Hdiff as [Hname Hdiff].
    inversion Hfresh as [|? ? [Htypes Hbuiltin] Hrest]; subst.
    cbn [TypeSystem.registerAll]. unfold TypeSystem._registerType.
    cbn [TypeSystem.typeId]. rewrite Htypes.
    set (type := TypeSystem.mkType name bits base).
    set (lib2 := TypeSystem.mkTypeLibrary _ _ _ _).
    destruct (IH lib2 Hdiff) as (lib' & Hreg & Hlibs & Hin & Hout).
    { rewrite Forall_forall in Hrest, Hname. apply Forall_forall.
      intros other Hother. destruct (Hrest other Hother) as [H1 H2].
      specialize (Hname other Hother). subst lib2. simpl.
      rewrite !find_assign_other by assumption. auto. }
    exists lib'. split; [exact Hreg|]. split; [|split].
    + rewrite Hlibs. subst lib2. simpl. rewrite <- app_assoc. reflexivity.
    + intros name' bits' Hmem. apply elem_of_cons in Hmem as [Heq|Hmem];
        [|apply Hin, Hmem].
      injection Heq as -> ->.
      destruct (Hout name) as [H1 H2].
      { eapply Forall_impl; [|exact Hname]. intros other Hother.
        rewrite sameKey_sym. exact Hother. }
      rewrite H1, H2. subst lib2. simpl.
      rewrite !find_assign_fresh by assumption. auto.
    + intros j Hj. inversion Hj as [|? ? Hj0 Hjrest]; subst.
      destruct (Hout j Hjrest) as [H1 H2]. rewrite H1, H2.
      subst lib2. simpl. rewrite !find_assign_other by assumption. auto.
Qed.

(** X15: with an irreflexive comparator under which the names of
    [builtinTypeInfo] are pairwise different keys,
    [registerBuiltInTypes] on the empty library never throws; after it
    every name of the table is known to [_hasType], [_getType] returns
    for it the type with the bit size of the table without changing the
    library, and the names were passed to [addObject] in table order. *)
Theorem registerBuiltInTypes_all (less : list ascii -> list ascii -> bool)
    (atoi : list ascii -> Z) (tid : TypeSystem.TypeIds) (sizeof_time_t : Z)
    (base : list ascii) (newValue : TypeSystem.Type_ -> TypeSystem.Value) :
  (forall a, less a a = false) ->
  TypeSystem.differentKeys less
    (fst <$> TypeSystem.builtinTypeInfo tid sizeof_time_t) = true ->
  exists lib,
    TypeSystem.registerBuiltInTypes less tid sizeof_time_t base newValue
      TypeSystem.emptyLibrary = inr lib /\
    TypeSystem._typeLibraries lib
      = fst <$> TypeSystem.builtinTypeInfo tid sizeof_time_t /\
    forall name bits,
      (name, bits) ∈ TypeSystem.builtinTypeInfo tid sizeof_time_t ->
      TypeSystem._hasType less lib name = true /\
      TypeSystem._getType less atoi lib name
        = inr (lib, TypeSystem.mkType name bits base).
Proof.
  intros Hirr Hdiff.
  destruct (registerAll_spec less base newValue
              (TypeSystem.builtinTypeInfo tid sizeof_time_t)
              TypeSystem.emptyLibrary Hirr Hdiff)
    as (lib & Hreg & Hlibs & Hin & _).
  { apply Forall_forall. intros name _. split; reflexivity. }
  exists lib. split; [exact Hreg|]. split; [exact Hlibs|].
  intros name bits Hmem. destruct (Hin name bits Hmem) as [_ Hbuiltin].
  unfold TypeSystem._hasType, TypeSystem._getType. rewrite Hbuiltin.
  split; reflexivity.
Qed.

(** * Properties of the conversions of [query/TypeSystem.cpp] *)

(** ** Integers as text *)

Lemma digitChar_facts (d : Z) :
  0 <= d < 10 ->
  TypeSystem.isdigit (TypeSystem.digitChar d) = true /\
  TypeSystem.digitValue (TypeSystem.digitChar d) = d /\
  (TypeSystem.digitChar d = "0"%char -> d = 0).
Proof.
  intros Hd.
  assert (d = 0 \/ d = 1 \/ d = 2 \/ d = 3 \/ d = 4 \/ d = 5 \/ d = 6
          \/ d = 7 \/ d = 8 \/ d = 9) as Hcases by lia.
  repeat (destruct Hcases as [->|Hcases]); try subst d;
    (split; [reflexivity|split; [reflexivity|]]);
    intros H; first [reflexivity | discriminate H].
Qed.

Lemma decimalValue_snoc (ds : list ascii) (d : ascii) :
  TypeSystem.decimalValue (ds ++ [d])
  = 10 * TypeSystem.decimalValue ds + TypeSystem.digitValue d.
Proof. unfold TypeSystem.decimalValue. rewrite foldl_app. reflexivity. Qed.

Lemma showDigits_spec (fuel : nat) (n : Z) (acc : list ascii) :
  0 <= n < 2 ^ Z.of_nat (S fuel) ->
  exists ds,
    TypeSystem.showDigits (S fuel) n acc = ds ++ acc /\
    TypeSystem.canonical ds /\ TypeSystem.decimalValue ds = n /\
    (length ds <= S fuel)%nat.
Proof.
  revert n acc. induction fuel as [|fuel IH]; intros n acc Hn.
  - change (2 ^ Z.of_nat 1) with 2 in Hn.
    assert (n = 0 \/ n = 1) as [->| ->] by lia;
      [exists ["0"%char] | exists ["1"%char]]; repeat split; auto;
      try (repeat constructor; fail); try discriminate.
  - cbn [TypeSystem.showDigits].
    destruct (digitChar_facts (n mod 10)) as (Hdig & Hval & Hzero);
      [apply Z.mod_pos_bound; lia|].
    destruct (n <? 10) eqn:Hsmall.
    + apply Z.ltb_lt in Hsmall.
      rewrite Z.mod_small in * by lia.
      exists [TypeSystem.digitChar n]. split; [reflexivity|].
      split; [|split; [|simpl; lia]].
      * split; [discriminate|]. split; [repeat constructor; exact Hdig|].
        simpl. intros H. rewrite (Hzero H). reflexivity.
      * unfold TypeSystem.decimalValue. simpl. lia.
    + apply Z.ltb_ge in Hsmall.
      destruct (IH (n / 10) (TypeSystem.digitChar (n mod 10) :: acc))
        as (ds & Heq & (Hne & Hall & Hhd) & Hdec & Hlen).
      { split; [apply Z.div_pos; lia|].
        apply Z.div_lt_upper_bound; [lia|].
        replace (Z.of_nat (S (S fuel))) with (Z.of_nat (S fuel) + 1) in Hn
          by lia.
        rewrite Z.pow_add_r in Hn by lia. lia. }
      exists (ds ++ [TypeSystem.digitChar (n mod 10)]).
      split; [|split; [|split]].
      * cbn [TypeSystem.showDigits] in Heq. rewrite Heq, <- app_assoc.
        reflexivity.
      * split; [destruct ds; discriminate|].
        split; [apply Forall_app; split;
                [exact Hall|repeat constructor; exact Hdig]|].
        destruct ds as [|c ds']; [congruence|]. simpl. intros Hc.
        specialize (Hhd Hc). injection Hhd as _ ->.
        subst c. change (TypeSystem.decimalValue ["0"%char]) with 0 in Hdec.
        assert (1 <= n / 10) by (apply Z.div_le_lower_bound; lia). lia.
      * rewrite decimalValue_snoc, Hdec, Hval.
        rewrite (Z.div_mod n 10) at 3 by lia. reflexivity.
      * rewrite length_app. simpl. lia.
Qed.

Lemma showNatural_spec (n : Z) :
  0 <= n ->
  TypeSystem.canonical (TypeSystem.showNatural n) /\
  TypeSystem.decimalValue (TypeSystem.showNatural n) = n /\
  (n < 2 ^ 64 -> (length (TypeSystem.showNatural n) <= 64)%nat).
Proof.
  intros Hn. unfold TypeSystem.showNatural.
  assert (0 <= n < 2 ^ Z.of_nat (S (Z.to_nat (Z.log2 n)))) as Hfuel.
  { split; [exact Hn|].
    rewrite Nat2Z.inj_succ, Z2Nat.id by apply Z.log2_nonneg.
    destruct (Z.eq_dec n 0) as [->|Hnz]; [reflexivity|].
    apply Z.log2_spec. lia. }
  destruct (showDigits_spec _ n [] Hfuel) as (ds & Heq & Hcan & Hdec & Hlen).
  rewrite app_nil_r in Heq. rewrite Heq.
  split; [exact Hcan|]. split; [exact Hdec|].
  intros Hbound.
  assert (Z.log2 n < 64).
  { destruct (Z.eq_dec n 0) as [->|Hnz]; [reflexivity|].
    apply Z.log2_lt_pow2; lia. }
  pose proof (Z.log2_nonneg n). lia.
Qed.

(** ** Scanning *)

Lemma c_str_prefix (s : list ascii) :
  exists rest, s = TypeSystem.c_str s ++ rest.
Proof.
  induction s as [|ch cp [rest IH]]; simpl; [exists []; reflexivity|].
  destruct (decide (ch = TypeSystem.NUL)).
  - exists (ch :: cp). reflexivity.
  - exists rest. simpl. rewrite <- IH. reflexivity.
Qed.

Lemma c_str_whole (s : list ascii) :
  length (TypeSystem.c_str s) = length s -> TypeSystem.c_str s = s.
Proof.
  destruct (c_str_prefix s) as [rest Hs]. intros Hlen.
  rewrite Hs in Hlen at 2. rewrite length_app in Hlen.
  destruct rest; [|simpl in Hlen; lia].
  rewrite app_nil_r in Hs. symmetry. exact Hs.
Qed.

Lemma span_app (ok : ascii -> bool) (ds rest : list ascii) :
  Forall (fun c => ok c = true) ds ->
  TypeSystem.span ok (ds ++ rest) = ds ++ TypeSystem.span ok rest.
Proof.
  induction 1 as [|c ds Hc _ IH]; simpl; [reflexivity|].
  rewrite Hc, IH. reflexivity.
Qed.

Lemma span_split (ok : ascii -> bool) (s : list ascii) :
  Forall (fun c => ok c = true) (TypeSystem.span ok s) /\
  exists rest, s = TypeSystem.span ok s ++ rest.
Proof.
  induction s as [|c s [IH [rest Hrest]]]; simpl.
  - split; [constructor|exists []; reflexivity].
  - destruct (ok c) eqn:Hc.
    + split; [constructor; assumption|].
      exists rest. simpl. rewrite <- Hrest. reflexivity.
    + split; [constructor|exists (c :: s); reflexivity].
Qed.

Lemma span_all (ok : ascii -> bool) (ds : list ascii) :
  Forall (fun c => ok c = true) ds -> TypeSystem.span ok ds = ds.
Proof.
  intros H. rewrite <- (app_nil_r ds) at 1.
  rewrite span_app by exact H. apply app_nil_r.
Qed.

Lemma span_short (ok : ascii -> bool) (ds : list ascii) :
  forallb ok ds = false ->
  (length (TypeSystem.span ok ds) < length ds)%nat.
Proof.
  induction ds as [|c ds IH]; simpl; [discriminate|].
  destruct (ok c); simpl; [|lia]. intros H. specialize (IH H). lia.
Qed.

Lemma isspace_facts (c : ascii) :
  TypeSystem.isspace c = true ->
  c <> TypeSystem.NUL /\ c <> "-"%char /\ c <> "+"%char /\
  TypeSystem.isdigit c = false.
Proof.
  destruct c as [[] [] [] [] [] [] [] []]; vm_compute;
    intros H; try discriminate H; repeat split; discriminate.
Qed.

Lemma skipSpaces_split (s : list ascii) :
  exists ws,
    s = ws ++ TypeSystem.skipSpaces s /\
    Forall (fun c => TypeSystem.isspace c = true) ws /\
    TypeSystem.isspace (hd TypeSystem.NUL (TypeSystem.skipSpaces s)) = false.
Proof.
  induction s as [|c s (ws & Hs & Hws & Hhd)]; simpl.
  - exists []. repeat split; constructor.
  - destruct (TypeSystem.isspace c) eqn:Hc.
    + exists (c :: ws). simpl. rewrite <- Hs.
      repeat split; [constructor; assumption|exact Hhd].
    + exists []. repeat split; [constructor|exact Hc].
Qed.

Lemma skipSpaces_app (ws s : list ascii) :
  Forall (fun c => TypeSystem.isspace c = true) ws ->
  TypeSystem.isspace (hd TypeSystem.NUL s) = false ->
  TypeSystem.skipSpaces (ws ++ s) = s.
Proof.
  intros Hws Hs. induction Hws as [|c ws Hc _ IH]; simpl.
  - destruct s as [|c s]; simpl in *; [reflexivity|]. rewrite Hs.
    reflexivity.
  - rewrite Hc. exact IH.
Qed.

(** The sign that [scanInteger] reads: nothing, a minus or a plus. *)
Lemma sign_cases (sg : list ascii) :
  sg = [] \/ sg = ["-"%char] \/ sg = ["+"%char] ->
  (length sg <= 1)%nat /\ Forall (fun c => c <> TypeSystem.NUL) sg /\
  Forall (fun c => TypeSystem.isdigit c = false) sg /\
  Forall (fun c => TypeSystem.isspace c = false) sg.
Proof.
  intros [->|[->| ->]]; repeat split; simpl; try lia;
    repeat constructor; discriminate.
Qed.

Lemma scanDigits_decimal (conv : TypeSystem.Conversion)
    (ds rest : list ascii) :
  ds <> [] ->
  Forall (fun c => TypeSystem.isdigit c = true) ds ->
  TypeSystem.span TypeSystem.isdigit rest = [] ->
  (conv = TypeSystem.conv_i -> hd TypeSystem.NUL ds <> "0"%char) ->
  TypeSystem.scanDigits conv (ds ++ rest)
  = Some (TypeSystem.decimalValue ds, length ds).
Proof.
  intros Hne Hds Hrest Hzero.
  assert (match TypeSystem.span TypeSystem.isdigit (ds ++ rest) with
          | [] => None
          | digits => Some (TypeSystem.decimalValue digits, length digits)
          end = Some (TypeSystem.decimalValue ds, length ds)) as Hdecimal.
  { rewrite span_app, Hrest, app_nil_r by exact Hds.
    destruct ds; [congruence|reflexivity]. }
  unfold TypeSystem.scanDigits. destruct conv; try exact Hdecimal.
  destruct ds as [|c0 ds']; [congruence|].
  cbn [app]. rewrite bool_decide_eq_false_2; [exact Hdecimal|].
  apply Hzero. reflexivity.
Qed.

(** What an integer directive reads from white space, a sign and a
    string that starts with a digit. *)
Lemma scanInteger_signed (conv : TypeSystem.Conversion)
    (ws sg digits : list ascii) (m : Z) (k : nat) :
  Forall (fun c => TypeSystem.isspace c = true) ws ->
  sg = [] \/ sg = ["-"%char] \/ sg = ["+"%char] ->
  TypeSystem.isdigit (hd TypeSystem.NUL digits) = true ->
  TypeSystem.scanDigits conv digits = Some (m, k) ->
  TypeSystem.scanInteger conv (ws ++ sg ++ digits)
  = Some (bool_decide (sg = ["-"%char]), m,
          (length ws + length sg + k)%nat).
Proof.
  intros Hws Hsg Hd Hscan. unfold TypeSystem.scanInteger.
  destruct digits as [|d ds']; [discriminate Hd|]. simpl in Hd.
  assert (TypeSystem.isspace (hd TypeSystem.NUL (sg ++ d :: ds')) = false)
    as Hhd.
  { destruct Hsg as [->|[->| ->]]; simpl; try reflexivity.
    destruct (TypeSystem.isspace d) eqn:Hsp; [|reflexivity].
    apply isspace_facts in Hsp. destruct Hsp as (_ & _ & _ & Hnd).
    congruence. }
  rewrite skipSpaces_app by assumption.
  replace (length (ws ++ sg ++ d :: ds') - length (sg ++ d :: ds'))%nat
    with (length ws) by (rewrite (length_app ws); lia).
  destruct Hsg as [->|[->| ->]]; cbn [app].
  - rewrite (bool_decide_eq_false_2 (d = "-"%char))
      by (intros ->; discriminate Hd).
    rewrite (bool_decide_eq_false_2 (d = "+"%char))
      by (intros ->; discriminate Hd).
    rewrite Hscan, bool_decide_eq_false_2 by discriminate.
    simpl. repeat f_equal; lia.
  - rewrite bool_decide_eq_true_2 by reflexivity. rewrite Hscan.
    rewrite bool_decide_eq_true_2 by reflexivity. reflexivity.
  - rewrite bool_decide_eq_false_2 by discriminate.
    rewrite bool_decide_eq_true_2 by reflexivity. rewrite Hscan.
    rewrite bool_decide_eq_false_2 by discriminate. reflexivity.
Qed.

Lemma scanDigits_inv (conv : TypeSystem.Conversion) (digits : list ascii)
    (magnitude : Z) (n : nat) :
  conv <> TypeSystem.conv_i ->
  TypeSystem.scanDigits conv digits = Some (magnitude, n) ->
  exists ds rest,
    digits = ds ++ rest /\ ds <> [] /\
    Forall (fun c => TypeSystem.isdigit c = true) ds /\
    magnitude = TypeSystem.decimalValue ds /\ n = length ds.
Proof.
  intros Hconv Hscan.
  assert (match TypeSystem.span TypeSystem.isdigit digits with
          | [] => None
          | ds => Some (TypeSystem.decimalValue ds, length ds)
          end = Some (magnitude, n)) as Hdecimal
    by (destruct conv; [exact Hscan|congruence|exact Hscan]).
  destruct (span_split TypeSystem.isdigit digits) as [Hall [rest Hrest]].
  destruct (TypeSystem.span TypeSystem.isdigit digits) as [|d ds] eqn:Hsp;
    [discriminate|].
  injection Hdecimal as <- <-.
  exists (d :: ds), rest.
  repeat split; [exact Hrest|discriminate|exact Hall].
Qed.

(** Conversely, what [%d] and [%u] read is of that form. *)
Lemma scanInteger_inv (conv : TypeSystem.Conversion) (s : list ascii)
    (negative : bool) (magnitude : Z) (n : nat) :
  conv <> TypeSystem.conv_i ->
  TypeSystem.scanInteger conv s = Some (negative, magnitude, n) ->
  exists ws sg ds rest,
    s = ws ++ sg ++ ds ++ rest /\
    Forall (fun c => TypeSystem.isspace c = true) ws /\
    (sg = [] \/ sg = ["-"%char] \/ sg = ["+"%char]) /\
    ds <> [] /\ Forall (fun c => TypeSystem.isdigit c = true) ds /\
    negative = bool_decide (sg = ["-"%char]) /\
    magnitude = TypeSystem.decimalValue ds /\
    n = (length ws + length sg + length ds)%nat.
Proof.
  intros Hconv. unfold TypeSystem.scanInteger.
  destruct (skipSpaces_split s) as (ws & Hs & Hws & _).
  assert (length s - length (TypeSystem.skipSpaces s) = length ws)%nat
    as Hspaces by (rewrite Hs at 1; rewrite length_app; lia).
  rewrite Hspaces. clear Hspaces. revert Hs.
  generalize (TypeSystem.skipSpaces s) as item. intros item Hs.
  assert (forall sg digits,
            item = sg ++ digits ->
            sg = [] \/ sg = ["-"%char] \/ sg = ["+"%char] ->
            match TypeSystem.scanDigits conv digits with
            | Some (m, k) =>
                Some (bool_decide (sg = ["-"%char]), m,
                      (length ws + length sg + k)%nat)
            | None => None
            end = Some (negative, magnitude, n) ->
            exists ws sg ds rest,
              s = ws ++ sg ++ ds ++ rest /\
              Forall (fun c => TypeSystem.isspace c = true) ws /\
              (sg = [] \/ sg = ["-"%char] \/ sg = ["+"%char]) /\
              ds <> [] /\ Forall (fun c => TypeSystem.isdigit c = true) ds /\
              negative = bool_decide (sg = ["-"%char]) /\
              magnitude = TypeSystem.decimalValue ds /\
              n = (length ws + length sg + length ds)%nat) as Hfinish.
  { intros sg digits Hitem Hsg Hres.
    destruct (TypeSystem.scanDigits conv digits) as [[m k]|] eqn:Hsd;
      [|discriminate].
    injection Hres as <- <- <-.
    destruct (scanDigits_inv conv digits m k Hconv Hsd)
      as (ds & rest & -> & Hne & Hds & -> & ->).
    exists ws, sg, ds, rest. subst item.
    repeat split; assumption. }
  destruct item as [|c rest].
  - apply (Hfinish [] []); [reflexivity|left; reflexivity].
  - destruct (bool_decide (c = "-"%char)) eqn:Hminus.
    + apply bool_decide_eq_true in Hminus. subst c.
      apply (Hfinish ["-"%char] rest);
        [reflexivity|right; left; reflexivity].
    + destruct (bool_decide (c = "+"%char)) eqn:Hplus.
      * apply bool_decide_eq_true in Hplus. subst c.
        apply (Hfinish ["+"%char] rest);
          [reflexivity|right; right; reflexivity].
      * apply (Hfinish [] (c :: rest)); [reflexivity|left; reflexivity].
Qed.

Lemma scanDigits_canonical (conv : TypeSystem.Conversion) (ds : list ascii) :
  TypeSystem.canonical ds ->
  TypeSystem.scanDigits conv ds
  = Some (TypeSystem.decimalValue ds, length ds).
Proof.
  intros (Hne & Hds & Hzero).
  destruct (decide (hd TypeSystem.NUL ds = "0"%char)) as [Hhd|Hhd].
  - rewrite (Hzero Hhd). destruct conv; reflexivity.
  - rewrite <- (app_nil_r ds) at 1.
    apply scanDigits_decimal; auto.
Qed.

Lemma intOfSize_small (k : nat) :
  Z.of_nat k < 2 ^ 31 -> TypeSystem.intOfSize k = Z.of_nat k.
Proof.
  intros Hk. unfold TypeSystem.intOfSize.
  rewrite Z.mod_small by lia.
  destruct (Z.of_nat k <? 2 ^ 31) eqn:H; [reflexivity|].
  apply Z.ltb_ge in H. lia.
Qed.

Lemma digits_no_NUL (ds : list ascii) :
  Forall (fun c => TypeSystem.isdigit c = true) ds ->
  Forall (fun c => c <> TypeSystem.NUL) ds.
Proof.
  intros H. eapply Forall_impl; [|exact H].
  intros c Hc. apply isdigit_facts in Hc. tauto.
Qed.

Lemma spaces_no_NUL (ws : list ascii) :
  Forall (fun c => TypeSystem.isspace c = true) ws ->
  Forall (fun c => c <> TypeSystem.NUL) ws.
Proof.
  intros H. eapply Forall_impl; [|exact H].
  intros c Hc. apply isspace_facts in Hc. tauto.
Qed.

Lemma decimalValue_nonneg (ds : list ascii) :
  Forall (fun c => TypeSystem.isdigit c = true) ds ->
  0 <= TypeSystem.decimalValue ds.
Proof.
  induction ds as [|d ds IH] using rev_ind; intros Hds.
  - vm_compute. discriminate.
  - apply Forall_app in Hds. destruct Hds as [Hds Hd].
    inversion Hd as [|? ? Hd' _]; subst.
    apply isdigit_facts in Hd'. specialize (IH Hds).
    rewrite decimalValue_snoc. lia.
Qed.

(** ** The number left in the variable *)

Lemma cast_fits (bits : Z) (signed : bool) (z : Z) :
  bits = 16 \/ bits = 32 \/ bits = 64 ->
  TypeSystem.inRange bits signed z ->
  TypeSystem.cast bits signed z = z.
Proof.
  unfold TypeSystem.cast, TypeSystem.inRange.
  intros [->|[->| ->]] Hz; destruct signed; cbn [andb];
    repeat match goal with
    | |- context [z mod ?M] =>
        pose proof (Z.div_mod z M ltac:(lia));
        pose proof (Z.mod_pos_bound z M ltac:(lia));
        generalize dependent (z mod M); generalize dependent (z / M);
        intros q r; intros
    end;
    try match goal with
    | |- context [?a <=? ?b] => destruct (Z.leb_spec a b)
    end; lia.
Qed.

Lemma cast_range (bits : Z) (signed : bool) (z : Z) :
  bits = 16 \/ bits = 32 \/ bits = 64 ->
  TypeSystem.inRange bits signed (TypeSystem.cast bits signed z).
Proof.
  unfold TypeSystem.cast, TypeSystem.inRange.
  intros [->|[->| ->]]; destruct signed; cbn [andb];
    repeat match goal with
    | |- context [z mod ?M] =>
        pose proof (Z.mod_pos_bound z M ltac:(lia));
        generalize dependent (z mod M); intros r; intros
    end;
    try match goal with
    | |- context [?a <=? ?b] => destruct (Z.leb_spec a b)
    end; lia.
Qed.

(** A number that fits the variable is left in it as it is. *)
Lemma converted_fits (conv : TypeSystem.Conversion) (bits : Z)
    (signed negative : bool) (magnitude : Z) :
  signed = TypeSystem.isSigned conv ->
  bits = 16 \/ bits = 32 \/ bits = 64 ->
  0 <= magnitude ->
  TypeSystem.inRange bits signed
    (if negative then - magnitude else magnitude) ->
  TypeSystem.converted conv bits signed negative magnitude
  = if negative then - magnitude else magnitude.
Proof.
  intros Hsigned Hbits Hm Hz. unfold TypeSystem.converted.
  rewrite <- Hsigned.
  replace (if signed then TypeSystem.strtol negative magnitude
           else TypeSystem.strtoul negative magnitude)
    with (if negative then - magnitude else magnitude);
    [apply cast_fits; assumption|].
  unfold TypeSystem.inRange in Hz.
  destruct signed.
  - unfold TypeSystem.strtol.
    destruct Hbits as [->|[->| ->]]; destruct negative; lia.
  - unfold TypeSystem.strtoul.
    destruct (Z.leb_spec (2 ^ 64) magnitude);
      [destruct Hbits as [->|[->| ->]]; destruct negative; lia|].
    destruct negative; [|reflexivity].
    assert (magnitude = 0) as -> by lia. reflexivity.
Qed.

(** An integer branch on white space, a sign and digits: the outcome
    follows from what the directive makes of the digits. *)
Lemma parseInteger_scanned (conv : TypeSystem.Conversion) (bits : Z)
    (signed : bool) (refused : Z -> bool) (set : Z -> TypeSystem.Setter)
    (ws sg digits str type : list ascii) (m : Z) (k : nat) :
  Forall (fun c => TypeSystem.isspace c = true) ws ->
  sg = [] \/ sg = ["-"%char] \/ sg = ["+"%char] ->
  digits <> [] ->
  Forall (fun c => TypeSystem.isdigit c = true) digits ->
  TypeSystem.scanDigits conv digits = Some (m, k) ->
  Z.of_nat (length (ws ++ sg ++ digits)) < 2 ^ 31 ->
  TypeSystem.parseInteger conv bits signed refused set
    (ws ++ sg ++ digits) str type
  = let val :=
      TypeSystem.converted conv bits signed
        (bool_decide (sg = ["-"%char])) m in
    if negb (k =? length digits)%nat || refused val
    then TypeSystem.Thrown (TypeSystem.FAILED_PARSE_STRING str type)
    else TypeSystem.Done (set val).
Proof.
  intros Hws Hsg Hne Hds Hscan Hlen. unfold TypeSystem.parseInteger.
  rewrite c_str_id.
  2: { repeat (apply Forall_app; split);
       [apply spaces_no_NUL; exact Hws
       |apply (sign_cases sg Hsg)|apply digits_no_NUL; exact Hds]. }
  rewrite (scanInteger_signed conv ws sg digits m k); auto.
  2: { destruct digits as [|d ?]; [congruence|].
       inversion Hds; subst. assumption. }
  cbv zeta.
  rewrite intOfSize_small by exact Hlen.
  rewrite !length_app.
  replace (Z.of_nat (length ws + length sg + k) =?
           Z.of_nat (length ws + (length sg + length digits)))
    with (k =? length digits)%nat; [reflexivity|].
  destruct (Nat.eqb_spec k (length digits)) as [->|Hneq].
  - symmetry. apply Z.eqb_eq. lia.
  - symmetry. apply Z.eqb_neq. lia.
Qed.

Lemma parseInteger_decimal_iff (conv : TypeSystem.Conversion) (bits : Z)
    (signed : bool) (refused : Z -> bool) (set : Z -> TypeSystem.Setter)
    (str type : list ascii) (lo hi : Z) (s : TypeSystem.Setter) :
  conv <> TypeSystem.conv_i ->
  bits = 16 \/ bits = 32 \/ bits = 64 ->
  Z.of_nat (length str) < 2 ^ 31 ->
  (forall z, TypeSystem.inRange bits signed z ->
             refused z = false <-> lo <= z <= hi) ->
  TypeSystem.parseInteger conv bits signed refused set str str type
    = TypeSystem.Done s <->
  exists ws sg ds,
    str = ws ++ sg ++ ds /\
    Forall (fun c => TypeSystem.isspace c = true) ws /\
    (sg = [] \/ sg = ["-"%char] \/ sg = ["+"%char]) /\
    ds <> [] /\ Forall (fun c => TypeSystem.isdigit c = true) ds /\
    lo <= TypeSystem.scanned conv bits signed sg ds <= hi /\
    s = set (TypeSystem.scanned conv bits signed sg ds).
Proof.
  intros Hconv Hbits Hlen Hrange.
  assert (forall sg ds,
            refused (TypeSystem.scanned conv bits signed sg ds) = false <->
            lo <= TypeSystem.scanned conv bits signed sg ds <= hi) as Htest
    by (intros sg ds; apply Hrange, cast_range, Hbits).
  split.
  - unfold TypeSystem.parseInteger.
    destruct (TypeSystem.scanInteger conv (TypeSystem.c_str str))
      as [[[negative magnitude] n]|] eqn:Hscan; [|discriminate].
    destruct (scanInteger_inv conv _ negative magnitude n Hconv Hscan)
      as (ws & sg & ds & rest & Hstr & Hws & Hsg & Hne & Hds & -> & ->
          & ->).
    cbv zeta. fold (TypeSystem.scanned conv bits signed sg ds).
    rewrite intOfSize_small by exact Hlen.
    destruct (Z.eqb_spec (Z.of_nat (length ws + length sg + length ds))
                (Z.of_nat (length str))) as [Heq|]; [|discriminate].
    cbn [negb orb].
    destruct (refused (TypeSystem.scanned conv bits signed sg ds)) eqn:Href;
      [discriminate|].
    intros [= <-].
    destruct (c_str_prefix str) as [tail Htail].
    assert (length (TypeSystem.c_str str) =
            length ws + length sg + length ds + length rest)%nat as Hl1
      by (rewrite Hstr, !length_app; lia).
    assert (length str = length (TypeSystem.c_str str) + length tail)%nat
      as Hl2 by (rewrite Htail at 1; apply length_app).
    assert (rest = []) as -> by (destruct rest; [reflexivity|simpl in *; lia]).
    assert (tail = []) as -> by (destruct tail; [reflexivity|simpl in *; lia]).
    rewrite app_nil_r in Htail. rewrite <- Htail in Hstr.
    rewrite app_nil_r in Hstr.
    exists ws, sg, ds. repeat split; try assumption;
      apply Htest; exact Href.
  - intros (ws & sg & ds & -> & Hws & Hsg & Hne & Hds & Hz & ->).
    apply Htest in Hz.
    rewrite (parseInteger_scanned conv bits signed refused set ws sg ds
               (ws ++ sg ++ ds) type (TypeSystem.decimalValue ds) (length ds));
      auto.
    + cbv zeta. fold (TypeSystem.scanned conv bits signed sg ds).
      rewrite Hz, Nat.eqb_refl. reflexivity.
    + rewrite <- (app_nil_r ds) at 1.
      apply scanDigits_decimal; auto; intros; contradiction.
Qed.

(** ** Telling the type names apart *)

Lemma allIds_distinct (tid : TypeSystem.TypeIds) (i j : nat)
    (a b : list ascii) :
  NoDup (TypeSystem.allIds tid) ->
  TypeSystem.allIds tid !! i = Some a ->
  TypeSystem.allIds tid !! j = Some b ->
  i <> j ->
  TypeSystem.sameId a b = false.
Proof.
  intros Hnd Hi Hj Hij. apply bool_decide_eq_false. intros ->.
  apply Hij. eapply NoDup_lookup; eauto.
Qed.

Ltac tid_index a :=
  lazymatch a with
  | TypeSystem.TID_INDICATOR _ => constr:(0%nat)
  | TypeSystem.TID_CHAR _ => constr:(1%nat)
  | TypeSystem.TID_INT8 _ => constr:(2%nat)
  | TypeSystem.TID_INT16 _ => constr:(3%nat)
  | TypeSystem.TID_INT32 _ => constr:(4%nat)
  | TypeSystem.TID_INT64 _ => constr:(5%nat)
  | TypeSystem.TID_UINT8 _ => constr:(6%nat)
  | TypeSystem.TID_UINT16 _ => constr:(7%nat)
  | TypeSystem.TID_UINT32 _ => constr:(8%nat)
  | TypeSystem.TID_UINT64 _ => constr:(9%nat)
  | TypeSystem.TID_FLOAT _ => constr:(10%nat)
  | TypeSystem.TID_DOUBLE _ => constr:(11%nat)
  | TypeSystem.TID_BOOL _ => constr:(12%nat)
  | TypeSystem.TID_STRING _ => constr:(13%nat)
  | TypeSystem.TID_DATETIME _ => constr:(14%nat)
  | TypeSystem.TID_VOID _ => constr:(15%nat)
  | TypeSystem.TID_BINARY _ => constr:(16%nat)
  | TypeSystem.TID_DATETIMETZ _ => constr:(17%nat)
  end.

(** Decides the tests [TID_A == TID_B] of the goal from the hypothesis
    [H] that the names are pairwise distinct. *)
Ltac tid_tests H :=
  rewrite ?sameId_refl;
  repeat match goal with
  | |- context [TypeSystem.sameId ?a ?b] =>
      let i := tid_index a in
      let j := tid_index b in
      rewrite (allIds_distinct _ i j a b H eq_refl eq_refl ltac:(lia))
  end;
  cbn [orb].

(** X16: for a string shorter than 2^31 characters and each of int32,
    int8, int16, uint8, uint16, uint32 and uint64, [StringToValue]
    stores a number exactly when the string is optional white space, an
    optional sign and decimal digits with nothing after them, and the
    number that [sscanf] leaves in the variable passes the test after
    the scan, which for int8 is -127 to 127 and for uint8 at most 255.
    It stores that number, which is the number written whenever that
    fits the variable. *)
Theorem StringToValue_decimal (tid : TypeSystem.TypeIds)
    (libc : TypeSystem.Libc) (fixTicket4273 : bool)
    (parseDateTime : list ascii -> TypeSystem.Error + Z)
    (parseDateTimeTz : list ascii -> TypeSystem.Error + Z * Z)
    (type str : list ascii) (conv : TypeSystem.Conversion) (bits : Z)
    (signed : bool) (lo hi : Z) (set : Z -> TypeSystem.Setter)
    (s : TypeSystem.Setter) :
  NoDup (TypeSystem.allIds tid) ->
  Z.of_nat (length str) < 2 ^ 31 ->
  (type, (conv, bits, signed), (lo, hi), set)
    ∈ TypeSystem.decimalTypes tid ->
  (TypeSystem.StringToValue tid libc fixTicket4273 parseDateTime
     parseDateTimeTz type str = TypeSystem.Done s <->
   exists ws sg ds,
     str = ws ++ sg ++ ds /\
     Forall (fun c => TypeSystem.isspace c = true) ws /\
     (sg = [] \/ sg = ["-"%char] \/ sg = ["+"%char]) /\
     ds <> [] /\ Forall (fun c => TypeSystem.isdigit c = true) ds /\
     lo <= TypeSystem.scanned conv bits signed sg ds <= hi /\
     s = set (TypeSystem.scanned conv bits signed sg ds)) /\
  (forall sg ds,
     Forall (fun c => TypeSystem.isdigit c = true) ds ->
     TypeSystem.inRange bits signed (TypeSystem.signedValue sg ds) ->
     TypeSystem.scanned conv bits signed sg ds
     = TypeSystem.signedValue sg ds).
Proof.
  intros Hnd Hlen Hin. unfold TypeSystem.decimalTypes in Hin.
  assert (forall sg ds,
            signed = TypeSystem.isSigned conv ->
            bits = 16 \/ bits = 32 \/ bits = 64 ->
            Forall (fun c => TypeSystem.isdigit c = true) ds ->
            TypeSystem.inRange bits signed (TypeSystem.signedValue sg ds) ->
            TypeSystem.scanned conv bits signed sg ds
            = TypeSystem.signedValue sg ds) as Hfits.
  { intros sg ds Hsigned Hbits Hds Hz.
    unfold TypeSystem.scanned, TypeSystem.signedValue in *.
    apply converted_fits; auto using decimalValue_nonneg. }
  repeat (apply elem_of_cons in Hin; destruct Hin as [Hin|Hin]);
    [..|apply elem_of_nil in Hin; contradiction];
    injection Hin as -> -> -> -> -> -> ->;
    (split;
     [unfold TypeSystem.StringToValue; tid_tests Hnd;
      apply parseInteger_decimal_iff;
      [discriminate|auto|exact Hlen|];
      intros z; unfold TypeSystem.inRange;
      rewrite ?orb_false_iff, ?Z.ltb_ge; lia
     |intros sg ds; apply Hfits; auto]).
Qed.

Lemma showInt_split (z : Z) :
  exists sg ds,
    TypeSystem.showInt z = sg ++ ds /\
    (sg = [] \/ sg = ["-"%char] \/ sg = ["+"%char]) /\
    TypeSystem.canonical ds /\
    TypeSystem.signedValue sg ds = z /\
    TypeSystem.decimalValue ds = Z.abs z /\
    (- 2 ^ 64 < z < 2 ^ 64 -> (length (sg ++ ds) <= 65)%nat).
Proof.
  unfold TypeSystem.showInt, TypeSystem.signedValue.
  destruct (Z.ltb_spec z 0) as [Hneg|Hpos].
  - destruct (showNatural_spec (- z)) as (Hcan & Hdec & Hlen); [lia|].
    exists ["-"%char], (TypeSystem.showNatural (- z)).
    rewrite bool_decide_eq_true_2 by reflexivity.
    repeat split; try apply Hcan; auto; try lia.
    intros Hz. specialize (Hlen ltac:(lia)). simpl. lia.
  - destruct (showNatural_spec z) as (Hcan & Hdec & Hlen); [lia|].
    exists [], (TypeSystem.showNatural z).
    rewrite bool_decide_eq_false_2 by discriminate.
    repeat split; try apply Hcan; auto; try lia.
    intros Hz. specialize (Hlen ltac:(lia)). simpl. lia.
Qed.

(** An integer branch reads back what [operator<<] wrote. *)
Lemma parseInteger_showInt (conv : TypeSystem.Conversion) (bits : Z)
    (signed : bool) (refused : Z -> bool) (set : Z -> TypeSystem.Setter)
    (str type : list ascii) (z : Z) :
  signed = TypeSystem.isSigned conv ->
  bits = 16 \/ bits = 32 \/ bits = 64 ->
  TypeSystem.inRange bits signed z ->
  TypeSystem.parseInteger conv bits signed refused set
    (TypeSystem.showInt z) str type
  = if refused z
    then TypeSystem.Thrown (TypeSystem.FAILED_PARSE_STRING str type)
    else TypeSystem.Done (set z).
Proof.
  intros Hsigned Hbits Hin.
  assert (- 2 ^ 64 < z < 2 ^ 64) as Hz.
  { unfold TypeSystem.inRange in Hin.
    destruct Hbits as [->|[->| ->]]; destruct signed; lia. }
  destruct (showInt_split z)
    as (sg & ds & -> & Hsg & Hcan & Hval & Habs & Hlen).
  specialize (Hlen Hz). change (sg ++ ds) with ([] ++ sg ++ ds).
  rewrite (parseInteger_scanned conv bits signed refused set [] sg ds
             str type (TypeSystem.decimalValue ds) (length ds));
    try (apply Hcan); auto.
  - cbv zeta. unfold TypeSystem.signedValue in Hval.
    rewrite converted_fits; auto.
    + rewrite Hval, Nat.eqb_refl. reflexivity.
    + rewrite Habs. apply Z.abs_nonneg.
    + rewrite Hval. exact Hin.
  - apply scanDigits_canonical. exact Hcan.
  - simpl. lia.
Qed.

Lemma stripLeadingZeroes_showInt (z : Z) :
  TypeSystem.stripLeadingZeroes (TypeSystem.showInt z)
  = TypeSystem.showInt z.
Proof.
  destruct (showInt_split z) as (sg & ds & -> & Hsg & Hcan & _).
  destruct Hcan as (Hne & Hds & Hzero).
  destruct ds as [|d ds']; [congruence|].
  destruct (decide (hd TypeSystem.NUL (sg ++ d :: ds') = "0"%char))
    as [Hhd|Hhd].
  - destruct Hsg as [->|[->| ->]]; try discriminate Hhd.
    rewrite (Hzero Hhd). reflexivity.
  - unfold TypeSystem.stripLeadingZeroes.
    destruct (TypeSystem.c_str (sg ++ d :: ds')) as [|ch cp1] eqn:Hc;
      [reflexivity|].
    assert (ch = hd TypeSystem.NUL (sg ++ d :: ds')) as ->.
    { destruct (sg ++ d :: ds') as [|c0 rest0]; [discriminate Hc|].
      simpl in Hc. destruct (decide (c0 = TypeSystem.NUL));
        [discriminate Hc|]. injection Hc as -> _. reflexivity. }
    rewrite bool_decide_eq_false_2 by exact Hhd. reflexivity.
Qed.

(** X17: [StringToValue] reads back what [ValueToString] wrote for a
    value that is not null, for every integer type and for bool and
    indicator, with one exception: the int8 value -128 is written as
    -128 and then refused with [FAILED_PARSE_STRING]. *)
Theorem StringToValue_ValueToString (tid : TypeSystem.TypeIds)
    (libc : TypeSystem.Libc) (fixTicket4273 : bool)
    (parseDateTime : list ascii -> TypeSystem.Error + Z)
    (parseDateTimeTz : list ascii -> TypeSystem.Error + Z * Z)
    (value : TypeSystem.Value) (precision : Z) :
  NoDup (TypeSystem.allIds tid) ->
  TypeSystem.isNull value = false ->
  let back type :=
    TypeSystem.StringToValue tid libc fixTicket4273 parseDateTime
      parseDateTimeTz type
      (TypeSystem.ValueToString tid libc type value precision) in
  (TypeSystem.inRange 64 true (TypeSystem.getInt64 value) ->
   back (TypeSystem.TID_INT64 tid)
   = TypeSystem.Done (TypeSystem.setInt64 (TypeSystem.getInt64 value))) /\
  (TypeSystem.inRange 32 true (TypeSystem.getInt32 value) ->
   back (TypeSystem.TID_INT32 tid)
   = TypeSystem.Done (TypeSystem.setInt32 (TypeSystem.getInt32 value))) /\
  (TypeSystem.inRange 16 true (TypeSystem.getInt16 value) ->
   back (TypeSystem.TID_INT16 tid)
   = TypeSystem.Done (TypeSystem.setInt16 (TypeSystem.getInt16 value))) /\
  (-127 <= TypeSystem.getInt8 value <= 127 ->
   back (TypeSystem.TID_INT8 tid)
   = TypeSystem.Done (TypeSystem.setInt8 (TypeSystem.getInt8 value))) /\
  (TypeSystem.getInt8 value = -128 ->
   back (TypeSystem.TID_INT8 tid)
   = TypeSystem.Thrown
       (TypeSystem.FAILED_PARSE_STRING (TypeSystem.lit "-128")
          (TypeSystem.TID_INT8 tid))) /\
  (TypeSystem.inRange 64 false (TypeSystem.getUint64 value) ->
   back (TypeSystem.TID_UINT64 tid)
   = TypeSystem.Done (TypeSystem.setUint64 (TypeSystem.getUint64 value))) /\
  (TypeSystem.inRange 32 false (TypeSystem.getUint32 value) ->
   back (TypeSystem.TID_UINT32 tid)
   = TypeSystem.Done (TypeSystem.setUint32 (TypeSystem.getUint32 value))) /\
  (TypeSystem.inRange 16 false (TypeSystem.getUint16 value) ->
   back (TypeSystem.TID_UINT16 tid)
   = TypeSystem.Done (TypeSystem.setUint16 (TypeSystem.getUint16 value))) /\
  (TypeSystem.inRange 8 false (TypeSystem.getUint8 value) ->
   back (TypeSystem.TID_UINT8 tid)
   = TypeSystem.Done (TypeSystem.setUint8 (TypeSystem.getUint8 value))) /\
  back (TypeSystem.TID_BOOL tid)
  = TypeSystem.Done (TypeSystem.setBool (TypeSystem.getBool value)) /\
  back (TypeSystem.TID_INDICATOR tid)
  = TypeSystem.Done (TypeSystem.setBool (TypeSystem.getBool value)).
Proof.
  intros Hnd Hnull back. subst back. cbv beta.
  unfold TypeSystem.StringToValue, TypeSystem.ValueToString.
  rewrite Hnull.
  assert (forall z, (127 <? z) || (z <? -127) =
                    negb ((-127 <=? z) && (z <=? 127))) as Hint8
    by (intros z; destruct (Z.ltb_spec 127 z), (Z.ltb_spec z (-127)),
          (Z.leb_spec (-127) z), (Z.leb_spec z 127); simpl; lia).
  repeat apply conj; try intros Hrange; tid_tests Hnd;
    try (unfold TypeSystem.inRange in Hrange);
    rewrite ?stripLeadingZeroes_showInt, ?Tauto.if_same;
    try (rewrite parseInteger_showInt;
         [|reflexivity
          |first [left; reflexivity | right; left; reflexivity
                 | right; right; reflexivity]
          |unfold TypeSystem.inRange; lia]).
  - reflexivity.
  - reflexivity.
  - reflexivity.
  - rewrite Hint8. destruct (Z.leb_spec (-127) (TypeSystem.getInt8 value));
      destruct (Z.leb_spec (TypeSystem.getInt8 value) 127); try lia.
    reflexivity.
  - rewrite Hrange. reflexivity.
  - reflexivity.
  - reflexivity.
  - reflexivity.
  - destruct (Z.ltb_spec 255 (TypeSystem.getUint8 value)); [lia|reflexivity].
  - destruct (TypeSystem.getBool value); reflexivity.
  - destruct (TypeSystem.getBool value); reflexivity.
Qed.

(** ** Leading zeroes *)

Lemma isodigit_facts (c : ascii) :
  TypeSystem.isodigit c = true ->
  TypeSystem.isdigit c = true /\ 0 <= TypeSystem.digitValue c <= 7.
Proof.
  destruct c as [[] [] [] [] [] [] [] []]; vm_compute;
    intros H; try discriminate H; repeat split; discriminate.
Qed.

Lemma isdigit_not_X (c : ascii) :
  TypeSystem.isdigit c = true -> TypeSystem.toupper c <> "X"%char.
Proof.
  destruct c as [[] [] [] [] [] [] [] []]; vm_compute;
    intros H; try discriminate H; discriminate.
Qed.

Lemma octalValue_snoc (ds : list ascii) (d : ascii) :
  TypeSystem.octalValue (ds ++ [d])
  = 8 * TypeSystem.octalValue ds + TypeSystem.digitValue d.
Proof. unfold TypeSystem.octalValue. rewrite foldl_app. reflexivity. Qed.

Lemma octalValue_bound (ds : list ascii) :
  Forall (fun c => TypeSystem.isodigit c = true) ds ->
  0 <= TypeSystem.octalValue ds < 8 ^ Z.of_nat (length ds).
Proof.
  induction ds as [|d ds IH] using rev_ind; intros Hds.
  - vm_compute. split; [discriminate|reflexivity].
  - apply Forall_app in Hds. destruct Hds as [Hds Hd].
    inversion Hd as [|? ? Hd' _]; subst.
    apply isodigit_facts in Hd'. specialize (IH Hds).
    rewrite octalValue_snoc, length_app. simpl length.
    replace (Z.of_nat (length ds + 1)) with (Z.of_nat (length ds) + 1)
      by lia.
    rewrite Z.pow_add_r by lia. lia.
Qed.

Lemma scanDigits_octal (ds : list ascii) :
  ds <> [] ->
  Forall (fun c => TypeSystem.isdigit c = true) ds ->
  TypeSystem.scanDigits TypeSystem.conv_i ("0"%char :: ds)
  = Some (TypeSystem.octalValue (TypeSystem.span TypeSystem.isodigit ds),
          S (length (TypeSystem.span TypeSystem.isodigit ds))).
Proof.
  intros Hne Hds. unfold TypeSystem.scanDigits.
  rewrite bool_decide_eq_true_2 by reflexivity.
  destruct ds as [|d ds']; [congruence|]. inversion Hds; subst.
  rewrite bool_decide_eq_false_2 by (apply isdigit_not_X; assumption).
  reflexivity.
Qed.

(** X18: a decimal number of up to twenty digits written after a zero
    and read as an int64.  Without [FIX_TICKET_4273] the digits are
    taken as an octal number, and the string is refused when one of
    them is 8 or 9; with it, the decimal value is stored. *)
Theorem StringToValue_int64_leading_zero (tid : TypeSystem.TypeIds)
    (libc : TypeSystem.Libc)
    (parseDateTime : list ascii -> TypeSystem.Error + Z)
    (parseDateTimeTz : list ascii -> TypeSystem.Error + Z * Z)
    (ds : list ascii) :
  NoDup (TypeSystem.allIds tid) ->
  ds <> [] ->
  Forall (fun c => TypeSystem.isdigit c = true) ds ->
  (length ds <= 20)%nat ->
  let str := "0"%char :: ds in
  let read fixTicket4273 :=
    TypeSystem.StringToValue tid libc fixTicket4273 parseDateTime
      parseDateTimeTz (TypeSystem.TID_INT64 tid) str in
  read false
  = (if forallb TypeSystem.isodigit ds
     then TypeSystem.Done (TypeSystem.setInt64 (TypeSystem.octalValue ds))
     else TypeSystem.Thrown
            (TypeSystem.FAILED_PARSE_STRING str (TypeSystem.TID_INT64 tid)))
  /\
  (TypeSystem.decimalValue ds < 2 ^ 63 ->
   read true
   = TypeSystem.Done (TypeSystem.setInt64 (TypeSystem.decimalValue ds))).
Proof.
  intros Hnd Hne Hds Hlen str read. subst str read. cbv beta.
  unfold TypeSystem.StringToValue. tid_tests Hnd. split.
  - change ("0"%char :: ds) with ([] ++ [] ++ "0"%char :: ds) at 1.
    rewrite (parseInteger_scanned TypeSystem.conv_i 64 true _ _ [] []
               ("0"%char :: ds) _ _
               (TypeSystem.octalValue
                  (TypeSystem.span TypeSystem.isodigit ds))
               (S (length (TypeSystem.span TypeSystem.isodigit ds))));
      try constructor; auto; try reflexivity; try discriminate;
      [| apply scanDigits_octal; assumption | simpl; lia].
    destruct (span_split TypeSystem.isodigit ds) as [Hoct [rest Hrest]].
    pose proof (octalValue_bound _ Hoct) as Hbound.
    assert (length (TypeSystem.span TypeSystem.isodigit ds) <= 20)%nat
      as Hshort.
    { rewrite Hrest in Hlen. rewrite length_app in Hlen. lia. }
    assert (8 ^ Z.of_nat (length (TypeSystem.span TypeSystem.isodigit ds))
            <= 8 ^ 20) as Hpow by (apply Z.pow_le_mono_r; lia).
    cbv zeta. rewrite bool_decide_eq_false_2 by discriminate.
    rewrite converted_fits;
      [|reflexivity|right; right; reflexivity|lia
       |unfold TypeSystem.inRange; lia].
    cbn [orb length].
    destruct (forallb TypeSystem.isodigit ds) eqn:Hall.
    + rewrite span_all by (apply Forall_forall; intros c Hc;
        rewrite forallb_forall in Hall; apply Hall; exact Hc).
      rewrite Nat.eqb_refl. reflexivity.
    + apply span_short in Hall.
      destruct (Nat.eqb_spec
                  (S (length (TypeSystem.span TypeSystem.isodigit ds)))
                  (S (length ds))); [lia|reflexivity].
  - intros Hrange.
    destruct (stripLeadingZeroes_canonical ("0"%char :: ds))
      as (Hval & Hall & Hstripped & Hzero & Hshort);
      [discriminate|constructor; [reflexivity|exact Hds]|].
    cbv zeta in Hval, Hall, Hstripped, Hzero, Hshort.
    change (TypeSystem.decimalValue ("0"%char :: ds))
      with (TypeSystem.decimalValue ds) in Hval.
    set (str1 := TypeSystem.stripLeadingZeroes ("0"%char :: ds)) in *.
    change str1 with ([] ++ [] ++ str1) at 1.
    rewrite (parseInteger_scanned TypeSystem.conv_i 64 true _ _ [] []
               str1 _ _ (TypeSystem.decimalValue str1) (length str1));
      try constructor; auto;
      [| apply scanDigits_canonical; repeat split; assumption
       | simpl in *; lia].
    pose proof (decimalValue_nonneg _ Hds).
    cbv zeta. rewrite bool_decide_eq_false_2 by discriminate.
    rewrite converted_fits;
      [|reflexivity|right; right; reflexivity|lia
       |unfold TypeSystem.inRange; lia].
    rewrite Hval, Nat.eqb_refl. reflexivity.
Qed.

(** ** Strings and characters between quotes *)

(** X19: for a string value, [ValueToString] writes the C string
    between two quotes in such a way that it can be read back: undoing
    the backslashes of the part between the outer quotes gives the C
    string, and every quote in that part follows a backslash. *)
Theorem ValueToString_string (tid : TypeSystem.TypeIds)
    (libc : TypeSystem.Libc) (value : TypeSystem.Value) (precision : Z)
    (str : list ascii) :
  NoDup (TypeSystem.allIds tid) ->
  TypeSystem.isNull value = false ->
  TypeSystem.getString value = Some str ->
  exists body,
    TypeSystem.ValueToString tid libc (TypeSystem.TID_STRING tid) value
      precision = TypeSystem.quote :: body ++ [TypeSystem.quote] /\
    TypeSystem.unquote body = TypeSystem.c_str str /\
    forall i, body !! i = Some TypeSystem.quote ->
              exists j, i = S j /\ body !! j = Some "\"%char.
Proof.
  intros Hnd Hnull Hstr.
  exists (TypeSystem.tidStringQuote str (TypeSystem.lit "\'")).
  split; [|split].
  - unfold TypeSystem.ValueToString. rewrite Hnull, Hstr.
    tid_tests Hnd. reflexivity.
  - apply unquote_tidStringQuote. reflexivity.
  - intros i Hi.
    apply (tidStringQuote_after_backslash str _ i TypeSystem.quote Hi);
      [discriminate|reflexivity].
Qed.



(** ** Conversions to and from [double] *)

Ltac split_tests type :=
  repeat match goal with
  | |- context [TypeSystem.sameId ?a type] =>
      destruct (TypeSystem.sameId a type) eqn:?; cbn [orb]
  end.

(** X21: [DoubleToValue] and [ValueToDouble] refuse the same types with
    [TYPE_CONVERSION_ERROR], except int32: [ValueToDouble] converts an
    int32 but [DoubleToValue] has no branch for it and throws.  For
    int16, [DoubleToValue] casts to [int32_t] and calls [setInt32]. *)
Theorem DoubleToValue_ValueToDouble (tid : TypeSystem.TypeIds)
    (libc : TypeSystem.Libc) (type : list ascii) (value : TypeSystem.Value)
    (d : Z) :
  NoDup (TypeSystem.allIds tid) ->
  (type <> TypeSystem.TID_INT32 tid ->
   (TypeSystem.DoubleToValue tid libc type d
    = TypeSystem.Thrown
        (TypeSystem.TYPE_CONVERSION_ERROR (TypeSystem.lit "double") type)
    <->
    TypeSystem.ValueToDouble tid libc type value
    = TypeSystem.Thrown
        (TypeSystem.TYPE_CONVERSION_ERROR type (TypeSystem.lit "double"))))
  /\
  TypeSystem.DoubleToValue tid libc (TypeSystem.TID_INT32 tid) d
  = TypeSystem.Thrown
      (TypeSystem.TYPE_CONVERSION_ERROR (TypeSystem.lit "double")
         (TypeSystem.TID_INT32 tid)) /\
  TypeSystem.ValueToDouble tid libc (TypeSystem.TID_INT32 tid) value
  = TypeSystem.Done
      (TypeSystem.intToDouble libc (TypeSystem.getInt32 value)) /\
  TypeSystem.DoubleToValue tid libc (TypeSystem.TID_INT16 tid) d
  = TypeSystem.Done
      (TypeSystem.setInt32 (TypeSystem.doubleToInt libc 32 true d)).
Proof.
  intros Hnd. split; [|repeat split].
  - intros Hint32.
    assert (TypeSystem.sameId (TypeSystem.TID_INT32 tid) type = false)
      as Hfalse by (apply bool_decide_eq_false; congruence).
    unfold TypeSystem.DoubleToValue, TypeSystem.ValueToDouble.
    rewrite Hfalse. split_tests type;
      repeat match goal with
      | |- context [match ?x with _ => _ end] => destruct x
      end;
      split; intros H; first [discriminate H | reflexivity].
  - unfold TypeSystem.DoubleToValue. tid_tests Hnd. reflexivity.
  - unfold TypeSystem.ValueToDouble. tid_tests Hnd. reflexivity.
  - unfold TypeSystem.DoubleToValue. tid_tests Hnd. reflexivity.
Qed.

(** * More on generation ids *)

(** X22: on a build without [__APPLE__], for two readings of the
    monotonic clock with nanoseconds below 10^9 and less than 2^64
    nanoseconds since the clock's origin, [getNextGenId] preserves the
    order: the later reading gives the greater generation id, and equal
    ids come from equal readings. *)
Theorem getNextGenId_monotonic (os1 os2 : SystemClocks)
    (ts1 ts2 : timespec) :
  clock_gettime_MONOTONIC os1 = Some ts1 ->
  clock_gettime_MONOTONIC os2 = Some ts2 ->
  0 <= ts_sec ts1 -> 0 <= ts_nsec ts1 < billion ->
  0 <= ts_sec ts2 -> 0 <= ts_nsec ts2 < billion ->
  ts_sec ts1 * billion + ts_nsec ts1 < 2 ^ 64 ->
  ts_sec ts2 * billion + ts_nsec ts2 < 2 ^ 64 ->
  exists g1 g2,
    getNextGenId false os1 = inr g1 /\
    getNextGenId false os2 = inr g2 /\
    (g1 < g2 <->
     ts_sec ts1 < ts_sec ts2 \/
     (ts_sec ts1 = ts_sec ts2 /\ ts_nsec ts1 < ts_nsec ts2)) /\
    (g1 = g2 <-> ts1 = ts2).
Proof.
  intros H1 H2 Hs1 Hn1 Hs2 Hn2 Hb1 Hb2.
  unfold getNextGenId. rewrite H1, H2, !U64_mul_add_wrap.
  unfold U64.wrap, U64.modulus, billion in *.
  rewrite !Z.mod_small by lia.
  eexists _, _. split; [reflexivity|]. split; [reflexivity|].
  split; [lia|].
  split.
  - intros Heq. destruct ts1 as [s1 n1], ts2 as [s2 n2]. simpl in *.
    assert (s1 = s2) by lia. subst. f_equal. lia.
  - intros ->. reflexivity.
Qed.

(** * Instances *)

Lemma lessCodes_irrefl (a : list ascii) : TypeSystem.lessCodes a a = false.
Proof.
  induction a as [|x a IH]; simpl; [reflexivity|].
  rewrite Nat.ltb_irrefl. exact IH.
Qed.

Lemma exampleLess_irrefl (a : list ascii) :
  TypeSystem.exampleLess a a = false.
Proof. apply lessCodes_irrefl. Qed.

Lemma tidStringQuote_unquote_example :
  TypeSystem.unquote
    (TypeSystem.tidStringQuote (TypeSystem.lit "it's") (TypeSystem.lit "\'"))
  = TypeSystem.lit "it's".
Proof.
  destruct (tidStringQuote_unquote (TypeSystem.lit "it's")
              (TypeSystem.lit "it's") (TypeSystem.lit "\'")) as [H _];
    [reflexivity|exact H].
Defined.

Lemma tidStringQuote_escaped_example :
  exists j, 3%nat = S j /\
    TypeSystem.tidStringQuote (TypeSystem.lit "it's") (TypeSystem.lit "\'")
      !! j = Some "\"%char.
Proof.
  apply (tidStringQuote_escaped (TypeSystem.lit "it's")
           (TypeSystem.lit "\'") 3 "'"%char);
    [reflexivity|discriminate|reflexivity].
Defined.

Lemma stripLeadingZeroes_digits_zip :
  TypeSystem.stripLeadingZeroes (TypeSystem.lit "02139")
  = TypeSystem.lit "2139" /\
  TypeSystem.decimalValue
    (TypeSystem.stripLeadingZeroes (TypeSystem.lit "02139")) = 2139.
Proof.
  split; [reflexivity|].
  assert (TypeSystem.lit "02139" <> []) as Hne by discriminate.
  assert (Forall (fun c => TypeSystem.isdigit c = true)
            (TypeSystem.lit "02139")) as Hall by (repeat constructor).
  pose proof (stripLeadingZeroes_digits _ Hne Hall) as H.
  cbv zeta in H. destruct H as [H _]. exact H.
Defined.

Lemma propagateType_idempotent_example :
  TypeSystem.propagateType TypeSystem.exampleIds
    (TypeSystem.propagateType TypeSystem.exampleIds (TypeSystem.lit "int8"))
  = TypeSystem.lit "int64".
Proof.
  destruct (propagateType_idempotent TypeSystem.exampleIds
              (TypeSystem.lit "int8")) as [H _].
  - apply (bool_decide_unpack (NoDup _)). vm_compute. exact I.
  - exact H.
Defined.

Lemma registerType_lookup_example :
  TypeSystem._hasType TypeSystem.exampleLess TypeSystem.exampleLibrary
    (TypeSystem.lit "point") = true.
Proof.
  destruct (registerType_lookup TypeSystem.exampleLess
              TypeSystem.exampleAtoi TypeSystem.emptyLibrary
              TypeSystem.exampleLibrary TypeSystem.examplePoint
              exampleLess_irrefl) as [H _];
    [reflexivity|exact H].
Defined.

Lemma registerType_again_example :
  TypeSystem._registerType TypeSystem.exampleLess TypeSystem.exampleLibrary
    (TypeSystem.mkType (TypeSystem.lit "point") 64 (TypeSystem.lit "void"))
  = inl (TypeSystem.TYPE_ALREADY_REGISTERED (TypeSystem.lit "point")).
Proof.
  destruct (registerType_again TypeSystem.exampleLess
              TypeSystem.emptyLibrary TypeSystem.exampleLibrary
              TypeSystem.examplePoint exampleLess_irrefl) as [_ H];
    [reflexivity|].
  apply (H (TypeSystem.mkType (TypeSystem.lit "point") 64
              (TypeSystem.lit "void"))); [reflexivity|].
  left. discriminate.
Defined.

Lemma getType_stable_example :
  TypeSystem._getType TypeSystem.exampleLess TypeSystem.exampleAtoi
    TypeSystem.exampleGeneric (TypeSystem.lit "fixed_16")
  = inr TypeSystem.exampleLimited /\
  TypeSystem._hasType TypeSystem.exampleLess TypeSystem.exampleGeneric
    (TypeSystem.lit "fixed_16") = false /\
  TypeSystem._hasType TypeSystem.exampleLess
    (fst TypeSystem.exampleLimited) (TypeSystem.lit "fixed_16") = true.
Proof.
  split; [reflexivity|]. split; [reflexivity|].
  destruct (getType_stable TypeSystem.exampleLess TypeSystem.exampleAtoi
              TypeSystem.exampleGeneric (fst TypeSystem.exampleLimited)
              (TypeSystem.lit "fixed_16") (snd TypeSystem.exampleLimited)
              exampleLess_irrefl) as [H _];
    [reflexivity|exact H].
Defined.

Lemma registerBuiltInTypes_all_example :
  exists lib,
    TypeSystem.registerBuiltInTypes TypeSystem.exampleLess
      TypeSystem.exampleIds 8 (TypeSystem.lit "void")
      (fun _ => TypeSystem.exampleValue) TypeSystem.emptyLibrary = inr lib /\
    TypeSystem._getType TypeSystem.exampleLess TypeSystem.exampleAtoi lib
      (TypeSystem.lit "datetime")
    = inr (lib, TypeSystem.mkType (TypeSystem.lit "datetime") 64
                  (TypeSystem.lit "void")).
Proof.
  destruct (registerBuiltInTypes_all TypeSystem.exampleLess
              TypeSystem.exampleAtoi TypeSystem.exampleIds 8
              (TypeSystem.lit "void") (fun _ => TypeSystem.exampleValue)
              exampleLess_irrefl) as (lib & Hreg & _ & Hall);
    [reflexivity|].
  exists lib. split; [exact Hreg|].
  apply (Hall (TypeSystem.lit "datetime") 64).
  apply (list_elem_of_lookup_2 _ 14%nat). reflexivity.
Defined.

Lemma StringToValue_decimal_example :
  TypeSystem.StringToValue TypeSystem.exampleIds TypeSystem.exampleLibc
    false TypeSystem.exampleParseDateTime TypeSystem.exampleParseDateTimeTz
    (TypeSystem.lit "int8") (TypeSystem.lit " 65541")
  = TypeSystem.Done (TypeSystem.setInt8 5) /\
  TypeSystem.scanned TypeSystem.conv_d 16 true ["-"%char]
    (TypeSystem.lit "42") = -42.
Proof.
  destruct (StringToValue_decimal TypeSystem.exampleIds
              TypeSystem.exampleLibc false TypeSystem.exampleParseDateTime
              TypeSystem.exampleParseDateTimeTz (TypeSystem.lit "int8")
              (TypeSystem.lit " 65541") TypeSystem.conv_d 16 true
              (-127) 127 TypeSystem.setInt8 (TypeSystem.setInt8 5))
    as [Hstored Hfits].
  - apply (bool_decide_unpack (NoDup _)). vm_compute. exact I.
  - reflexivity.
  - apply (list_elem_of_lookup_2 _ 1%nat). reflexivity.
  - split.
    + apply Hstored.
      exists [" "%char], [], (TypeSystem.lit "65541").
      split; [reflexivity|]. split; [repeat constructor|].
      split; [left; reflexivity|]. split; [discriminate|].
      split; [repeat constructor|]. split; [|reflexivity].
      vm_compute. split; discriminate.
    + apply (Hfits ["-"%char] (TypeSystem.lit "42"));
        [repeat constructor|].
      vm_compute. split; [discriminate|reflexivity].
Defined.

Lemma StringToValue_ValueToString_example :
  TypeSystem.StringToValue TypeSystem.exampleIds TypeSystem.exampleLibc
    true TypeSystem.exampleParseDateTime TypeSystem.exampleParseDateTimeTz
    (TypeSystem.lit "int64")
    (TypeSystem.ValueToString TypeSystem.exampleIds TypeSystem.exampleLibc
       (TypeSystem.lit "int64") TypeSystem.exampleValue 6)
  = TypeSystem.Done (TypeSystem.setInt64 (-42)) /\
  TypeSystem.StringToValue TypeSystem.exampleIds TypeSystem.exampleLibc
    true TypeSystem.exampleParseDateTime TypeSystem.exampleParseDateTimeTz
    (TypeSystem.lit "int8")
    (TypeSystem.ValueToString TypeSystem.exampleIds TypeSystem.exampleLibc
       (TypeSystem.lit "int8") TypeSystem.exampleValue 6)
  = TypeSystem.Thrown
      (TypeSystem.FAILED_PARSE_STRING (TypeSystem.lit "-128")
         (TypeSystem.lit "int8")).
Proof.
  assert (NoDup (TypeSystem.allIds TypeSystem.exampleIds)) as Hnd
    by (apply (bool_decide_unpack (NoDup _)); vm_compute; exact I).
  pose proof (StringToValue_ValueToString TypeSystem.exampleIds
                TypeSystem.exampleLibc true TypeSystem.exampleParseDateTime
                TypeSystem.exampleParseDateTimeTz TypeSystem.exampleValue 6
                Hnd eq_refl) as H.
  cbv zeta in H. destruct H as (H64 & _ & _ & _ & H8 & _).
  split.
  - apply H64. vm_compute. split; [discriminate|reflexivity].
  - apply H8. reflexivity.
Defined.

Lemma StringToValue_int64_leading_zero_zip :
  TypeSystem.StringToValue TypeSystem.exampleIds TypeSystem.exampleLibc
    false TypeSystem.exampleParseDateTime TypeSystem.exampleParseDateTimeTz
    (TypeSystem.lit "int64") (TypeSystem.lit "02139")
  = TypeSystem.Thrown
      (TypeSystem.FAILED_PARSE_STRING (TypeSystem.lit "02139")
         (TypeSystem.lit "int64")) /\
  TypeSystem.StringToValue TypeSystem.exampleIds TypeSystem.exampleLibc
    true TypeSystem.exampleParseDateTime TypeSystem.exampleParseDateTimeTz
    (TypeSystem.lit "int64") (TypeSystem.lit "02139")
  = TypeSystem.Done (TypeSystem.setInt64 2139).
Proof.
  assert (NoDup (TypeSystem.allIds TypeSystem.exampleIds)) as Hnd
    by (apply (bool_decide_unpack (NoDup _)); vm_compute; exact I).
  assert (TypeSystem.lit "2139" <> []) as Hne by discriminate.
  assert (Forall (fun c => TypeSystem.isdigit c = true)
            (TypeSystem.lit "2139")) as Hall by (repeat constructor).
  assert (length (TypeSystem.lit "2139") <= 20)%nat as Hlen
    by (vm_compute; repeat constructor).
  pose proof (StringToValue_int64_leading_zero TypeSystem.exampleIds
                TypeSystem.exampleLibc TypeSystem.exampleParseDateTime
                TypeSystem.exampleParseDateTimeTz (TypeSystem.lit "2139")
                Hnd Hne Hall Hlen) as H.
  cbv zeta in H. destruct H as [Hoctal Hdecimal].
  split; [exact Hoctal|]. apply Hdecimal. reflexivity.
Defined.

Lemma ValueToString_string_example :
  exists body,
    TypeSystem.ValueToString TypeSystem.exampleIds TypeSystem.exampleLibc
      (TypeSystem.lit "string") TypeSystem.exampleValue 6
    = TypeSystem.quote :: body ++ [TypeSystem.quote] /\
    TypeSystem.unquote body = TypeSystem.lit "it's".
Proof.
  destruct (ValueToString_string TypeSystem.exampleIds
              TypeSystem.exampleLibc TypeSystem.exampleValue 6
              (TypeSystem.lit "it's")) as (body & Hshow & Hread & _).
  - apply (bool_decide_unpack (NoDup _)). vm_compute. exact I.
  - reflexivity.
  - reflexivity.
  - exists body. split; [exact Hshow|exact Hread].
Defined.


Lemma DoubleToValue_ValueToDouble_example :
  TypeSystem.DoubleToValue TypeSystem.exampleIds TypeSystem.exampleLibc
    (TypeSystem.lit "int32") 0
  = TypeSystem.Thrown
      (TypeSystem.TYPE_CONVERSION_ERROR (TypeSystem.lit "double")
         (TypeSystem.lit "int32")) /\
  TypeSystem.ValueToDouble TypeSystem.exampleIds TypeSystem.exampleLibc
    (TypeSystem.lit "int32") TypeSystem.exampleValue
  = TypeSystem.Done 17.
Proof.
  destruct (DoubleToValue_ValueToDouble TypeSystem.exampleIds
              TypeSystem.exampleLibc (TypeSystem.lit "int32")
              TypeSystem.exampleValue 0) as (_ & Hthrown & Hdone & _).
  - apply (bool_decide_unpack (NoDup _)). vm_compute. exact I.
  - split; [exact Hthrown|exact Hdone].
Defined.

Lemma getNextGenId_monotonic_example :
  exists g1 g2,
    getNextGenId false Example.os = inr g1 /\
    getNextGenId false
      (mkSystemClocks (Some (mkTimespec 100 6)) None) = inr g2 /\
    g1 < g2.
Proof.
  destruct (getNextGenId_monotonic Example.os
              (mkSystemClocks (Some (mkTimespec 100 6)) None)
              (mkTimespec 100 5) (mkTimespec 100 6))
    as (g1 & g2 & H1 & H2 & Hlt & _);
    try reflexivity; try (simpl; unfold billion; lia).
  exists g1, g2. split; [exact H1|]. split; [exact H2|].
  apply Hlt. right. split; [reflexivity|]. simpl. lia.
Defined.
